(** * Trajectory-optimisation transcriptions: Hermite-Simpson collocation,
      single and multiple shooting, and the system factory.

    The scripts compute on float64 arrays (jax with [jax_enable_x64]).  The
    arithmetic is kept behind the interface [Scalar], so that every function
    below is written once, in the order of operations of the Python source,
    and can be run on binary64 floats ([float]), on exact rationals ([Q]) and
    on the reals ([R], the only carrier with sine and cosine). *)

From Stdlib Require Import ZArith QArith Qround Qreals Reals Floats Lia Lra String.
From stdpp Require Import base option list.
From Stdlib Require Lqa.

Set Default Proof Using "Type".

(** ** Numeric interface *)

Module Num.

(** The arithmetic the sources use on scalars. [lit] reads a Python numeric
    literal (an int is promoted to float when it meets one); [fsq x] is
    [x ** 2], the only power the sources take. *)
Class Scalar (F : Type) : Type := {
  lit  : Q -> F;
  fadd : F -> F -> F;
  fsub : F -> F -> F;
  fmul : F -> F -> F;
  fdiv : F -> F -> F;
  fneg : F -> F;
  fsq  : F -> F
}.

(** [np.sin] and [np.cos]. *)
Class Trig (F : Type) : Type := {
  fsin : F -> F;
  fcos : F -> F
}.

(** [int(np.floor(x))] and [int(np.ceil(x))]; [None] where [int] raises
    (infinities and NaN). *)
Class Rounding (F : Type) : Type := {
  int_floor : F -> option Z;
  int_ceil  : F -> option Z
}.

(** [np.pi] and [np.inf]. *)
Class Extended (F : Type) : Type := {
  fpi  : F;
  finf : F
}.

Definition of_int {F} `{Scalar F} (z : Z) : F := lit (inject_Z z).

(** *** Exact rationals *)

#[export] Instance Q_scalar : Scalar Q := {|
  lit := fun q => q;
  fadd := Qplus; fsub := Qminus; fmul := Qmult; fdiv := Qdiv;
  fneg := Qopp;
  fsq := fun x => Qmult x x
|}.

#[export] Instance Q_rounding : Rounding Q := {|
  int_floor := fun x => Some (Qfloor x);
  int_ceil := fun x => Some (Qceiling x)
|}.

(** *** IEEE-754 binary64, the arithmetic of the scripts *)

Definition float_of_Z (z : Z) : float :=
  match z with
  | Z0 => PrimFloat.zero
  | Zpos _ => PrimFloat.of_uint63 (Uint63.of_Z z)
  | Zneg p => PrimFloat.opp (PrimFloat.of_uint63 (Uint63.of_Z (Zpos p)))
  end.

(** A decimal literal [n/d] whose numerator and denominator are below
    [2^53] is the correctly rounded quotient of two exact floats. *)
Definition float_lit (q : Q) : float :=
  PrimFloat.div (float_of_Z (Qnum q)) (float_of_Z (Zpos (Qden q))).

Definition float_signed (s : bool) (m : positive) : Z :=
  if s then Zneg m else Zpos m.

Definition float_floor (x : float) : option Z :=
  match Prim2SF x with
  | S754_zero _ => Some 0%Z
  | S754_finite s m e =>
      Some (match e with
            | Zneg p => (float_signed s m / 2 ^ Zpos p)%Z
            | _ => (float_signed s m * 2 ^ e)%Z
            end)
  | _ => None
  end.

Definition float_ceil (x : float) : option Z :=
  match Prim2SF x with
  | S754_zero _ => Some 0%Z
  | S754_finite s m e =>
      Some (match e with
            | Zneg p => (- (- float_signed s m / 2 ^ Zpos p))%Z
            | _ => (float_signed s m * 2 ^ e)%Z
            end)
  | _ => None
  end.

#[export] Instance float_scalar : Scalar float := {|
  lit := float_lit;
  fadd := PrimFloat.add; fsub := PrimFloat.sub;
  fmul := PrimFloat.mul; fdiv := PrimFloat.div;
  fneg := PrimFloat.opp;
  fsq := fun x => PrimFloat.mul x x
|}.

#[export] Instance float_rounding : Rounding float := {|
  int_floor := float_floor;
  int_ceil := float_ceil
|}.

#[export] Instance float_extended : Extended float := {|
  fpi := 0x1.921fb54442d18p+1%float;
  finf := PrimFloat.infinity
|}.

(** *** Reals *)

#[export] Instance R_scalar : Scalar R := {|
  lit := Q2R;
  fadd := Rplus; fsub := Rminus; fmul := Rmult; fdiv := Rdiv;
  fneg := Ropp;
  fsq := fun x => Rmult x x
|}.

#[export] Instance R_trig : Trig R := {|
  fsin := sin;
  fcos := cos
|}.

(** The largest integer below and the smallest integer above a real. *)
#[export] Instance R_rounding : Rounding R := {|
  int_floor := fun x => Some (Int_part x);
  int_ceil := fun x => Some (- Int_part (- x))%Z
|}.

End Num.

Import Num.

(** ** Arrays

    A one-dimensional array is a list of scalars, a two-dimensional array the
    list of its rows.  Failing Python code (an exception) returns [None]. *)

Module Numpy.

Abbreviation vec F := (list F).
Abbreviation matrix F := (list (list F)).

Section arrays.
Context {F : Type} `{Scalar F}.

(** Binary operation along one axis with numpy's broadcasting: an axis of
    length one is stretched, other lengths must agree. *)
Definition broadcast {A : Type} (op : A -> A -> option A)
    (a b : list A) : option (list A) :=
  match a, b with
  | [x], _ => mapM (op x) b
  | _, [y] => mapM (fun x => op x y) a
  | _, _ =>
      if decide (length a = length b)
      then mapM (fun p => op p.1 p.2) (zip a b)
      else None
  end.

Definition vadd : vec F -> vec F -> option (vec F) :=
  broadcast (fun x y => Some (fadd x y)).
Definition vsub : vec F -> vec F -> option (vec F) :=
  broadcast (fun x y => Some (fsub x y)).
(** [a - b] on two-dimensional arrays. *)
Definition msub : matrix F -> matrix F -> option (matrix F) := broadcast vsub.

(** [a * v], [v / a] with a scalar [a]. *)
Definition scale (a : F) (v : vec F) : vec F := fmul a <$> v.
Definition vdiv (v : vec F) (a : F) : vec F := (fun x => fdiv x a) <$> v.

(** [np.sum] over a one-dimensional array, accumulated from the left. *)
Definition np_sum (v : vec F) : F := foldl fadd (lit 0%Q) v.

(** [np.dot] of two one-dimensional arrays (no broadcasting). *)
Definition np_dot (a b : vec F) : option F :=
  if decide (length a = length b)
  then Some (np_sum (zip_with fmul a b))
  else None.

(** [np.ravel] of a two-dimensional array: row-major. *)
Definition np_ravel (m : matrix F) : vec F := concat m.

(** [a[i]] on a jax array with a Python int: a negative index counts from
    the end, and an index outside the array is clamped into it.  This is
    the behaviour for indices that fit the index type of the array; for
    larger ones jax raises or wraps, depending on its version, which this
    definition does not describe. *)
Definition getitem {A : Type} (a : list A) (i : Z) : option A :=
  let n := Z.of_nat (length a) in
  let i' := if (i <? 0)%Z then (i + n)%Z else i in
  a !! Z.to_nat (Z.max 0 (Z.min i' (n - 1))).

(** [a[:-1]] and [a[1:]]. *)
Definition but_last {A : Type} (a : list A) : list A :=
  take (length a - 1) a.
Definition but_first {A : Type} (a : list A) : list A := drop 1 a.

(** [jax.vmap g] over the leading axes of its arguments, which must all
    have the same length. *)
Fixpoint vmap2 {A B C : Type} (g : A -> B -> option C)
    (a : list A) (b : list B) : option (list C) :=
  match a, b with
  | [], [] => Some []
  | x :: a', y :: b' =>
      z ← g x y; zs ← vmap2 g a' b'; Some (z :: zs)
  | _, _ => None
  end.

Fixpoint vmap6 {A1 A2 A3 A4 A5 A6 C : Type}
    (g : A1 -> A2 -> A3 -> A4 -> A5 -> A6 -> option C)
    (a1 : list A1) (a2 : list A2) (a3 : list A3)
    (a4 : list A4) (a5 : list A5) (a6 : list A6) : option (list C) :=
  match a1, a2, a3, a4, a5, a6 with
  | [], [], [], [], [], [] => Some []
  | x1 :: r1, x2 :: r2, x3 :: r3, x4 :: r4, x5 :: r5, x6 :: r6 =>
      z ← g x1 x2 x3 x4 x5 x6;
      zs ← vmap6 g r1 r2 r3 r4 r5 r6;
      Some (z :: zs)
  | _, _, _, _, _, _ => None
  end.

(** [lax.scan fn init xs]: the final carry and the stacked outputs. *)
Fixpoint scan {C X Y : Type} (fn : C -> X -> option (C * Y))
    (init : C) (xs : list X) : option (C * list Y) :=
  match xs with
  | [] => Some (init, [])
  | x :: xs' =>
      r ← fn init x;
      rest ← scan fn r.1 xs';
      Some (rest.1, r.2 :: rest.2)
  end.

(** [np.reshape(a, (-1, 2))] of the row-major data of [a]; the size must
    be even. *)
Fixpoint pairs (data : vec F) : option (matrix F) :=
  match data with
  | [] => Some []
  | a :: b :: rest => cons [a; b] <$> pairs rest
  | [_] => None
  end.

(** Entry [j] of a vector and row [k] of a matrix, for stating results;
    zero and the empty row outside the array. *)
Definition entry (v : vec F) (j : nat) : F := default (lit 0%Q) (v !! j).
Definition row (m : matrix F) (k : nat) : vec F := default [] (m !! k).

End arrays.
End Numpy.

Import Numpy.

(** ** Flatten/unflatten codec *)

Module Codec.
Section codec.
Context {F : Type}.

(** A leaf of the structured tuple: a one- or two-dimensional array; a
    two-dimensional one records its number of columns. *)
Inductive array : Type :=
| Arr1 (v : list F)
| Arr2 (ncols : nat) (rows : list (list F)).

Inductive shape : Type :=
| Shape1 (n : nat)
| Shape2 (r c : nat).

Definition well_typed (a : array) : Prop :=
  match a with
  | Arr1 _ => True
  | Arr2 c rows => Forall (fun r => length r = c) rows
  end.

Definition shape_of (a : array) : shape :=
  match a with
  | Arr1 v => Shape1 (length v)
  | Arr2 c rows => Shape2 (length rows) c
  end.

Definition size (s : shape) : nat :=
  match s with
  | Shape1 n => n
  | Shape2 r c => r * c
  end.

Definition ravel (a : array) : list F :=
  match a with
  | Arr1 v => v
  | Arr2 _ rows => concat rows
  end.

Definition reshape (r c : nat) (data : list F) : list (list F) :=
  (fun i => take c (drop (i * c) data)) <$> seq 0 r.

Definition unravel_array (s : shape) (data : list F) : array :=
  match s with
  | Shape1 n => Arr1 (take n data)
  | Shape2 r c => Arr2 c (reshape r c data)
  end.

Fixpoint unravel_list (shapes : list shape) (flat : list F) : list array :=
  match shapes with
  | [] => []
  | s :: rest =>
      unravel_array s (take (size s) flat)
        :: unravel_list rest (drop (size s) flat)
  end.

Definition total_size (shapes : list shape) : nat :=
  sum_list (size <$> shapes).

(** Modelled from the spec: [jax.flatten_util.ravel_pytree], a library
    function outside the repository.  [flatten] concatenates the arrays of
    the tuple in their order, each in row-major order; the returned
    [unflatten] cuts a flat vector of the same total size at the recorded
    shapes, and raises on any other size. *)
Definition ravel_pytree (tree : list array)
    : list F * (list F -> option (list array)) :=
  let shapes := shape_of <$> tree in
  (concat (ravel <$> tree),
   fun flat =>
     if decide (length flat = total_size shapes)
     then Some (unravel_list shapes flat)
     else None).

(** [states, mid_states, controls, mid_controls = unravel(flat)] *)
Definition unpack4 (unravel : list F -> option (list array)) (flat : list F)
    : option (list (list F) * list (list F) * list F * list F) :=
  tree ← unravel flat;
  match tree with
  | [Arr2 _ states; Arr2 _ mid_states; Arr1 controls; Arr1 mid_controls] =>
      Some (states, mid_states, controls, mid_controls)
  | _ => None
  end.

(** [starting_xs, us = unravel(flat)] *)
Definition unpack2 (unravel : list F -> option (list array)) (flat : list F)
    : option (list (list F) * list F) :=
  tree ← unravel flat;
  match tree with
  | [Arr2 _ starting_xs; Arr1 us] => Some (starting_xs, us)
  | _ => None
  end.

End codec.
Arguments array : clear implicits.
End Codec.

(** ** Cart-pole dynamics of the collocation script *)

Module Cartpole.
Section cartpole.
Context {F : Type} `{Scalar F, Trig F}.

(** [make_cartpole(mc, mp, length, gravity)] returns [f(state, control)];
    the unpacking of [state] fails unless it has four entries. *)
Definition make_cartpole (mc mp length gravity : F)
    (state : vec F) (control : F) : option (vec F) :=
  match state with
  | [_; theta; x_vel; theta_vel] =>
      let x_accel :=
        fmul
          (fdiv (lit 1%Q) (fadd mc (fmul mp (fsq (fsin theta)))))
          (fadd control
             (fmul (fmul mp (fsin theta))
                (fadd (fmul length (fsq theta_vel))
                      (fmul gravity (fcos theta))))) in
      let theta_accel :=
        fmul
          (fdiv (lit 1%Q)
             (fmul length (fadd mc (fmul mp (fsq (fsin theta))))))
          (fsub
             (fsub
                (fmul (fneg control) (fcos theta))
                (fmul
                   (fmul (fmul (fmul mp length) (fsq theta_vel))
                      (fcos theta))
                   (fsin theta)))
             (fmul (fmul (fadd mc mp) gravity) (fsin theta))) in
      Some [x_vel; theta_vel; x_accel; theta_accel]
  | _ => None
  end.

End cartpole.
End Cartpole.

(** ** Hermite-Simpson direct collocation
    ([hermite_simpson_direct_collocation.py]) *)

Module HermiteSimpson.

(** The closures of [make_hs_nlp(horizon, nintervals, unravel)]. *)
Section transcription.
Context {F : Type} `{Scalar F, Trig F}.
Variable horizon : F.
Variable nintervals : nat.
Variable unravel : vec F -> option (matrix F * matrix F * vec F * vec F).

Definition interval_duration : F :=
  fdiv horizon (of_int (Z.of_nat nintervals)).

Definition f : vec F -> F -> option (vec F) :=
  Cartpole.make_cartpole (lit 2%Q) (lit 0.5%Q) (lit 0.5%Q) (lit 9.81%Q).

Definition cost (x : vec F) (u : F) : F := fsq u.

Definition hs_defect (state mid_state next_state : vec F)
    (control mid_control next_control : F) : option (vec F) :=
  rhs ← vsub next_state state;
  f_k ← f state control;
  f_mid ← f mid_state mid_control;
  f_next ← f next_state next_control;
  s ← vadd f_k (scale (lit 4%Q) f_mid);
  s ← vadd s f_next;
  let lhs := scale (fdiv interval_duration (lit 6%Q)) s in
  vsub rhs lhs.

Definition hs_interpolation (state mid_state next_state : vec F)
    (control mid_cotrol next_control : F) : option (vec F) :=
  s ← vadd state next_state;
  d ← vsub mid_state (scale (fdiv (lit 1%Q) (lit 2%Q)) s);
  f_k ← f state control;
  f_next ← f next_state next_control;
  df ← vsub f_k f_next;
  vsub d (scale (fdiv interval_duration (lit 8%Q)) df).

Definition hs_cost (state mid_state next_state : vec F)
    (control mid_control next_control : F) : option F :=
  Some (fmul (fdiv interval_duration (lit 6%Q))
          (fadd (fadd (cost state control)
                      (fmul (lit 4%Q) (cost mid_state mid_control)))
                (cost next_state next_control))).

Definition batched_cost := vmap6 hs_cost.
Definition batched_defects := vmap6 hs_defect.
Definition batched_interpolations := vmap6 hs_interpolation.

Definition objective (flat_variables : vec F) : option F :=
  '(states, mid_states, controls, mid_controls) ← unravel flat_variables;
  np_sum <$> batched_cost (but_last states) mid_states (but_first states)
               (but_last controls) mid_controls (but_first controls).

Definition equality_constraints (flat_variables : vec F) : option (vec F) :=
  '(states, mid_states, controls, mid_controls) ← unravel flat_variables;
  np_ravel <$> batched_defects
                 (but_last states) mid_states (but_first states)
                 (but_last controls) mid_controls (but_first controls).

Definition interpolation_constraints (flat_variables : vec F) : option (vec F) :=
  '(states, mid_states, controls, mid_controls) ← unravel flat_variables;
  np_ravel <$> batched_interpolations
                 (but_last states) mid_states (but_first states)
                 (but_last controls) mid_controls (but_first controls).

End transcription.

(** The bounds table of [make_hs_nlp].  The three [onp.empty] arrays start
    with whatever the allocator left there: [junk_state], [junk_control] and
    [junk_mid_control] give their initial contents. *)
Section bounds.
Context {F : Type} `{Scalar F, Extended F}.
Variable nintervals : nat.
Variables junk_state junk_control junk_mid_control : nat -> nat -> F.

Definition nvars : nat := nintervals + 1.

Definition onp_empty (junk : nat -> nat -> F) (r c : nat) : matrix F :=
  (fun i => junk i <$> seq 0 c) <$> seq 0 r.

(** [a[:, j] = v], [a[i, :] = v], [a[i, j] = v], [a[:] = row] and the
    index [-1]; every index used below lies inside its array. *)
Definition set_col (j : nat) (v : F) (a : matrix F) : matrix F :=
  (fun row : vec F => <[j := v]> row) <$> a.
Definition set_row (i : nat) (v : F) (a : matrix F) : matrix F :=
  alter (fun row : vec F => (fun _ => v) <$> row) i a.
Definition set_item (i j : nat) (v : F) (a : matrix F) : matrix F :=
  alter (fun row : vec F => <[j := v]> row) i a.
Definition set_all (row : vec F) (a : matrix F) : matrix F :=
  (fun _ : vec F => row) <$> a.
Definition last_index (a : matrix F) : nat := length a - 1.
Definition zeros_like (a : matrix F) : matrix F :=
  (fun row : vec F => (fun _ => lit 0%Q) <$> row) <$> a.

Definition dist : F := lit 0.8%Q.
Definition umax : Z := 100.

Definition state_bounds : matrix F :=
  let sb := onp_empty junk_state nvars 8 in
  let sb := set_col 0 (fmul (of_int (-2)) dist) sb in
  let sb := set_col 1 (fmul (of_int 2) dist) sb in
  let sb := set_col 2 (fmul (of_int (-2)) fpi) sb in
  let sb := set_col 3 (fmul (of_int 2) fpi) sb in
  let sb := set_col 4 (fneg finf) sb in
  let sb := set_col 5 finf sb in
  let sb := set_col 6 (fneg finf) sb in
  let sb := set_col 7 finf sb in
  let sb := set_row 0 (of_int 0) sb in
  let sb := set_row (last_index sb) (of_int 0) sb in
  let sb := set_item (last_index sb) 0 dist sb in
  let sb := set_item (last_index sb) 1 dist sb in
  let sb := set_item (last_index sb) 2 fpi sb in
  let sb := set_item (last_index sb) 3 fpi sb in
  sb.

Definition mid_state_bounds : matrix F :=
  let msb := zeros_like (but_last state_bounds) in
  set_all [fmul (of_int (-2)) dist; fmul (of_int 2) dist;
           fmul (of_int (-2)) fpi; fmul (of_int 2) fpi;
           fneg finf; finf; fneg finf; finf] msb.

Definition control_bounds : matrix F :=
  set_all [of_int (- umax); of_int umax] (onp_empty junk_control nvars 2).

Definition mid_control_bounds : matrix F :=
  set_all [of_int (- umax); of_int umax]
    (onp_empty junk_mid_control (nvars - 1) 2).

(** [np.vstack] of the four two-column tables. *)
Definition bounds : option (matrix F) :=
  sb ← pairs (np_ravel state_bounds);
  msb ← pairs (np_ravel mid_state_bounds);
  Some (sb ++ msb ++ control_bounds ++ mid_control_bounds).

End bounds.

(** The four results of [make_hs_nlp]; the division [horizon/nintervals]
    raises for [nintervals = 0]. *)
Record nlp {F : Type} : Type := {
  nlp_objective : list F -> option F;
  nlp_equality_constraints : list F -> option (list F);
  nlp_interpolation_constraints : list F -> option (list F);
  nlp_bounds : list (list F)
}.
Arguments nlp : clear implicits.

Definition make_hs_nlp {F : Type} `{Scalar F, Trig F, Extended F}
    (junk_state junk_control junk_mid_control : nat -> nat -> F)
    (horizon : F) (nintervals : nat)
    (unravel : list F -> option (matrix F * matrix F * vec F * vec F))
    : option (nlp F) :=
  match nintervals with
  | O => None
  | S _ =>
      b ← bounds nintervals junk_state junk_control junk_mid_control;
      Some {| nlp_objective := objective horizon nintervals unravel;
              nlp_equality_constraints :=
                equality_constraints horizon nintervals unravel;
              nlp_interpolation_constraints :=
                interpolation_constraints horizon nintervals unravel;
              nlp_bounds := b |}
  end.

(** [hs_control_interpolation(controls, mid_controls, interval_duration)]
    returns the closure [u(t)]. *)
Section interpolation.
Context {F : Type} `{Scalar F, Rounding F}.

Definition hs_control_interpolation (controls mid_controls : vec F)
    (interval_duration : F) (t : F) : option F :=
  kstart ← int_floor (fdiv t interval_duration);
  kend ← int_ceil (fdiv t interval_duration);
  if decide (kstart = kend) then getitem controls kstart
  else
    let tstart := fmul interval_duration (of_int kstart) in
    let tau := fsub t tstart in
    c_start ← getitem controls kstart;
    let first_term :=
      fmul (fmul (fmul (fdiv (lit 2%Q) (fsq interval_duration))
                       (fsub tau (fdiv interval_duration (lit 2%Q))))
                 (fsub tau interval_duration))
           c_start in
    m_start ← getitem mid_controls kstart;
    let second_term :=
      fmul (fmul (fmul (fdiv (lit 4%Q) (fsq interval_duration)) tau)
                 (fsub tau interval_duration))
           m_start in
    c_end ← getitem controls kend;
    let third_term :=
      fmul (fmul (fmul (fdiv (lit 2%Q) (fsq interval_duration)) tau)
                 (fsub tau (fdiv interval_duration (lit 2%Q))))
           c_end in
    Some (fadd (fsub first_term second_term) third_term).

End interpolation.

(** [hs_state_interpolation(states, mid_states, controls, mid_controls,
    interval_duration)] returns the closure [x(t)].  [tau ** 3] on a jax
    scalar is [tau * tau ** 2]. *)
Section state_interpolation.
Context {F : Type} `{Scalar F, Trig F, Rounding F}.

Definition hs_state_interpolation (states mid_states : matrix F)
    (controls mid_controls : vec F) (interval_duration : F) (t : F)
    : option (vec F) :=
  kstart ← int_floor (fdiv t interval_duration);
  kend ← int_ceil (fdiv t interval_duration);
  if decide (kstart = kend) then getitem states kstart
  else
    let tstart := fmul interval_duration (of_int kstart) in
    let tau := fsub t tstart in
    s_start ← getitem states kstart;
    c_start ← getitem controls kstart;
    fk ← f s_start c_start;
    m_start ← getitem mid_states kstart;
    mc_start ← getitem mid_controls kstart;
    fk_plus_half ← f m_start mc_start;
    s_end ← getitem states kend;
    c_end ← getitem controls kend;
    fk_plus_one ← f s_end c_end;
    let first_term := s_start in
    let second_term := (fun x => fmul x tau) <$> fk in
    a ← vadd (scale (of_int (-3)) fk) (scale (lit 4%Q) fk_plus_half);
    a ← vsub a fk_plus_one;
    let third_term :=
      vdiv ((fun x => fmul x (fsq tau))
              <$> scale (fdiv (lit 1%Q) (lit 2%Q)) a)
           interval_duration in
    b ← vsub (scale (lit 2%Q) fk) (scale (lit 4%Q) fk_plus_half);
    b ← vadd b (scale (lit 2%Q) fk_plus_one);
    let fourth_term :=
      vdiv ((fun x => fmul x (fmul tau (fsq tau)))
              <$> scale (fdiv (lit 1%Q) (lit 3%Q)) b)
           (fsq interval_duration) in
    r ← vadd first_term second_term;
    r ← vadd r third_term;
    vadd r fourth_term.

End state_interpolation.

(** The values the specification gives for interval [k] and state
    dimension [j]. *)
Section spec_values.
Context {F : Type} `{Scalar F, Trig F}.
Variable dt : F.
Variables states mid_states : matrix F.
Variables controls mid_controls : vec F.

(** Component [j] of [f(xs[k], us[k])]. *)
Definition dynamics_at (xs : matrix F) (us : vec F) (k j : nat) : F :=
  entry (default [] (f (row xs k) (entry us k))) j.

(** [state_{k+1} - state_k - (dt/6)*(f_k + 4*f_mid + f_{k+1})] *)
Definition defect_value (k j : nat) : F :=
  fsub (fsub (entry (row states (S k)) j) (entry (row states k) j))
    (fmul (fdiv dt (lit 6%Q))
       (fadd (fadd (dynamics_at states controls k j)
                   (fmul (lit 4%Q) (dynamics_at mid_states mid_controls k j)))
             (dynamics_at states controls (S k) j))).

(** [mid_state_k - (1/2)*(state_k + state_{k+1}) - (dt/8)*(f_k - f_{k+1})] *)
Definition interpolation_value (k j : nat) : F :=
  fsub (fsub (entry (row mid_states k) j)
             (fmul (fdiv (lit 1%Q) (lit 2%Q))
                (fadd (entry (row states k) j)
                      (entry (row states (S k)) j))))
    (fmul (fdiv dt (lit 8%Q))
       (fsub (dynamics_at states controls k j)
             (dynamics_at states controls (S k) j))).

(** [(dt/6)*(cost_k + 4*cost_mid + cost_{k+1})] *)
Definition simpson_cost (k : nat) : F :=
  fmul (fdiv dt (lit 6%Q))
    (fadd (fadd (cost (row states k) (entry controls k))
                (fmul (lit 4%Q)
                   (cost (row mid_states k) (entry mid_controls k))))
          (cost (row states (S k)) (entry controls (S k)))).

End spec_values.

(** The bounds table as the specification lays it out, for [n] interior
    nodes: the boundary states of the script and its raw bounds. *)
Section spec_bounds.
Context {F : Type} `{Scalar F, Extended F}.

Definition x_0 : vec F := [of_int 0; of_int 0; of_int 0; of_int 0].
Definition x_T : vec F := [dist; fpi; of_int 0; of_int 0].

Definition raw_state_bounds : matrix F :=
  [[fmul (of_int (-2)) dist; fmul (of_int 2) dist];
   [fmul (of_int (-2)) fpi; fmul (of_int 2) fpi];
   [fneg finf; finf];
   [fneg finf; finf]].

Definition raw_control_bounds : vec F := [of_int (-100); of_int 100].

(** A state pinned to [x]: lower and upper bound are both [x[j]]. *)
Definition pinned (x : vec F) : matrix F := (fun v => [v; v]) <$> x.

Definition bounds_table (n : nat) : matrix F :=
  pinned x_0 ++ concat (replicate n raw_state_bounds) ++ pinned x_T
    ++ concat (replicate (S n) raw_state_bounds)
    ++ replicate (S (S n)) raw_control_bounds
    ++ replicate (S n) raw_control_bounds.

End spec_bounds.

(** What "the interpolant reproduces the collocation values" says at node
    and interval [k], with [eqF] the equality on scalars. *)
Section spec_interpolation.
Context {F : Type} `{Scalar F, Rounding F}.
Variable eqF : F -> F -> Prop.

Definition node_time (dt : F) (k : nat) : F :=
  fmul (of_int (Z.of_nat k)) dt.
Definition midpoint_time (dt : F) (k : nat) : F :=
  fadd (node_time dt k) (fdiv dt (lit 2%Q)).

Definition reproduces_collocation_values
    (controls mid_controls : vec F) (dt : F) (k : nat) : Prop :=
  (forall c, controls !! k = Some c ->
     exists v, hs_control_interpolation controls mid_controls dt
                 (node_time dt k) = Some v /\ eqF v c)
  /\ (forall c m c', controls !! k = Some c -> mid_controls !! k = Some m ->
        controls !! S k = Some c' ->
        exists v, hs_control_interpolation controls mid_controls dt
                    (midpoint_time dt k) = Some v /\ eqF v m).

End spec_interpolation.

End HermiteSimpson.

(** The set-up of the collocation script: the initial guess, linear in the
    state from the origin to [[dist, pi, 0, 0]], and its flattening. *)
Module CollocationScript.
Section initial_guess.
Context {F : Type} `{Scalar F, Extended F}.
Variable intervals : nat.

Definition nvars : nat := intervals + 1.

(** [np.arange(nvars)/(nvars-1)] *)
Definition linear_interpolation : vec F :=
  (fun k => fdiv (of_int (Z.of_nat k)) (of_int (Z.of_nat (nvars - 1))))
    <$> seq 0 nvars.

(** [np.tile(...)] scaled row by row by [linear_interpolation]. *)
Definition initial_states : matrix F :=
  (fun w => scale w [HermiteSimpson.dist; fpi; of_int 0; of_int 0])
    <$> linear_interpolation.

(** [(initial_states[:-1] + initial_states[1:])/2] *)
Definition mid_states : option (matrix F) :=
  (fun sums : matrix F => (fun r : vec F => vdiv r (of_int 2)) <$> sums)
    <$> broadcast vadd (but_last initial_states) (but_first initial_states).

Definition np_zeros (n : nat) : vec F := replicate n (lit 0%Q).

Definition initial_variables : option (list (Codec.array F)) :=
  ms ← mid_states;
  Some [Codec.Arr2 4 initial_states; Codec.Arr2 4 ms;
        Codec.Arr1 (np_zeros nvars); Codec.Arr1 (np_zeros (nvars - 1))].

(** [flat_initial_variables, unravel = ravel_pytree(initial_variables)] *)
Definition flat_initial_variables : option (vec F) :=
  tree ← initial_variables; Some (Codec.ravel_pytree tree).1.
Definition unravel (flat : vec F)
    : option (matrix F * matrix F * vec F * vec F) :=
  tree ← initial_variables;
  Codec.unpack4 (Codec.ravel_pytree tree).2 flat.

End initial_guess.
End CollocationScript.

(** ** Van der Pol shooting scripts *)

(** Definitions the two shooting scripts share word for word: the constants,
    the dynamics [f], the instantaneous cost [c] and [integrate_fwd]. *)
Module VanDerPol.
Section vdp.
Context {F : Type} `{Scalar F}.

Definition horizon : Z := 10.
Definition num_control_intervals : Z := 20.
Definition step_size : F :=
  fdiv (of_int horizon) (of_int num_control_intervals).

Definition x0 : vec F := [lit 0%Q; lit 1%Q].
Definition xf : vec F := [lit 0%Q; lit 0%Q].

Definition f (x : vec F) (u : F) : option (vec F) :=
  x0 ← getitem x 0;
  x1 ← getitem x 1;
  Some [fadd (fsub (fmul (fsub (lit 1%Q) (fsq x1)) x0) x1) u; x0].

Definition c (x : vec F) (u : F) : option F :=
  d ← np_dot x x;
  Some (fadd d (fsq u)).

Definition vector_c := vmap2 c.

Definition rk4_step (x : vec F) (u : F) : option (vec F) :=
  k1 ← f x u;
  a ← vadd x (vdiv (scale step_size k1) (lit 2%Q));
  k2 ← f a u;
  a ← vadd x (vdiv (scale step_size k2) (lit 2%Q));
  k3 ← f a u;
  a ← vadd x (scale step_size k3);
  k4 ← f a u;
  s ← vadd k1 (scale (lit 2%Q) k2);
  s ← vadd s (scale (lit 2%Q) k3);
  s ← vadd s k4;
  vadd x (scale (fdiv step_size (lit 6%Q)) s).

Definition fn (carried_state : vec F) (u : F)
    : option (vec F * vec F) :=
  one_step_forward ← rk4_step carried_state u;
  Some (one_step_forward, one_step_forward).

(** [(last_state, all_next_xs)] *)
Definition integrate_fwd (us : vec F) : option (vec F * matrix F) :=
  scan fn x0 us.

(** The classical fourth-order Runge-Kutta step of size [h] for a
    dynamics [g], the control held constant, as the specification names
    it. *)
Definition rk4_classical (g : vec F -> F -> vec F) (h : F)
    (x : vec F) (u : F) : vec F :=
  let plus := zip_with fadd in
  let k1 := g x u in
  let k2 := g (plus x (vdiv (scale h k1) (lit 2%Q))) u in
  let k3 := g (plus x (vdiv (scale h k2) (lit 2%Q))) u in
  let k4 := g (plus x (scale h k3)) u in
  plus x (scale (fdiv h (lit 6%Q))
            (plus (plus (plus k1 (scale (lit 2%Q) k2))
                        (scale (lit 2%Q) k3)) k4)).

(** The Van der Pol vector field on a two-dimensional state. *)
Definition vdp (x : vec F) (u : F) : vec F :=
  match x with
  | [a; b] => [fadd (fsub (fmul (fsub (lit 1%Q) (fsq b)) a) b) u; a]
  | _ => []
  end.

Definition step : vec F -> F -> vec F := rk4_classical vdp step_size.

(** [x_0 = start], [x_{k+1} = step(x_k, us[k])]. *)
Fixpoint state_after (start : vec F) (us : vec F) (k : nat) : vec F :=
  match k with
  | O => start
  | S k' => step (state_after start us k') (entry us k')
  end.

End vdp.
End VanDerPol.

Module SingleShooting.
Section single.
Context {F : Type} `{Scalar F}.

Definition integrate_fwd := @VanDerPol.integrate_fwd F _.

Definition objective (us : vec F) : option F :=
  r ← integrate_fwd us;
  all_costs ← VanDerPol.vector_c r.2 us;
  d ← np_dot VanDerPol.x0 VanDerPol.x0;
  Some (fadd (np_sum all_costs) d).

Definition equality_constraints (us : vec F) : option (vec F) :=
  r ← integrate_fwd us;
  vsub r.1 VanDerPol.xf.

End single.
End SingleShooting.

Module MultipleShooting.
Section multiple.
Context {F : Type} `{Scalar F}.
(** The closure returned by [ravel_pytree((starting_xs, controls))]. *)
Variable unravel : vec F -> option (matrix F * vec F).

Definition integrate_fwd := @VanDerPol.integrate_fwd F _.

Definition single_rk4_step (x : vec F) (u : F) : option (vec F) :=
  k1 ← VanDerPol.f x u;
  a ← vadd x (vdiv (scale VanDerPol.step_size k1) (lit 2%Q));
  k2 ← VanDerPol.f a u;
  a ← vadd x (vdiv (scale VanDerPol.step_size k2) (lit 2%Q));
  k3 ← VanDerPol.f a u;
  a ← vadd x (scale VanDerPol.step_size k3);
  k4 ← VanDerPol.f a u;
  s ← vadd k1 (scale (lit 2%Q) k2);
  s ← vadd s (scale (lit 2%Q) k3);
  s ← vadd s k4;
  vadd x (scale (fdiv VanDerPol.step_size (lit 6%Q)) s).

Definition parallel_rk4_step := vmap2 single_rk4_step.

Definition objective (starting_xs_and_current_us : vec F) : option F :=
  '(_, us) ← unravel starting_xs_and_current_us;
  r ← integrate_fwd us;
  all_costs ← VanDerPol.vector_c r.2 us;
  d ← np_dot VanDerPol.x0 VanDerPol.x0;
  Some (fadd (np_sum all_costs) d).

Definition equality_constraints (starting_xs_and_current_us : vec F)
    : option (vec F) :=
  '(starting_xs, us) ← unravel starting_xs_and_current_us;
  predicted_next_states ← parallel_rk4_step starting_xs us;
  let ending_xs := but_first starting_xs ++ [VanDerPol.xf] in
  np_ravel <$> msub predicted_next_states ending_xs.

End multiple.

(** The bounds table of the multiple-shooting script, for a number of
    control intervals (20 in the script); the two [onp.empty] arrays start
    with arbitrary contents. *)
Section shooting_bounds.
Context {F : Type} `{Scalar F, Extended F}.
Variable num_control_intervals : nat.
Variables junk_control junk_state : nat -> nat -> F.

(** [step_size = horizon/num_control_intervals], at the head of the
    script: a quotient of two Python integers, which raises when the
    divisor is zero. *)
Definition step_size : option F :=
  if decide (num_control_intervals = 0) then None
  else Some (fdiv (of_int VanDerPol.horizon)
               (of_int (Z.of_nat num_control_intervals))).

Definition control_bounds : matrix F :=
  HermiteSimpson.set_all [lit (-0.75)%Q; lit 1.0%Q]
    (HermiteSimpson.onp_empty junk_control num_control_intervals 2).

Definition state_bounds : option (matrix F) :=
  let sb := HermiteSimpson.onp_empty junk_state num_control_intervals 4 in
  let sb := HermiteSimpson.set_col 0 (fneg finf) sb in
  let sb := HermiteSimpson.set_col 2 (fneg finf) sb in
  let sb := HermiteSimpson.set_col 1 finf sb in
  let sb := HermiteSimpson.set_col 3 finf sb in
  x0_0 ← getitem VanDerPol.x0 0;
  (* an index outside an [onp] array raises *)
  _ ← sb !! 0;
  let sb := HermiteSimpson.set_item 0 0 x0_0 sb in
  let sb := HermiteSimpson.set_item 0 1 x0_0 sb in
  x0_1 ← getitem VanDerPol.x0 1;
  let sb := HermiteSimpson.set_item 0 2 x0_1 sb in
  let sb := HermiteSimpson.set_item 0 3 x0_1 sb in
  pairs (np_ravel sb).

(** The script down to [all_bounds]: the step size comes first; the
    statements between it and the bounds draw the random initial guess
    and raise for no positive number of intervals. *)
Definition all_bounds : option (matrix F) :=
  _ ← step_size;
  sb ← state_bounds;
  Some (sb ++ control_bounds).

End shooting_bounds.
End MultipleShooting.

(** ** System factory ([source/systems.py]) *)

Module Systems.

(** The Python values that reach [get_system]: integers, strings and the
    members of enumerations.  A member of a plain [Enum] is equal to
    itself only. *)
Inductive value : Type :=
| PyInt (z : Z)
| PyStr (s : string)
| Member (enum name : string).

(** [a == b] *)
Definition value_eqb (a b : value) : bool :=
  match a, b with
  | PyInt x, PyInt y => (x =? y)%Z
  | PyStr x, PyStr y => String.eqb x y
  | Member e x, Member e' y => String.eqb e e' && String.eqb x y
  | _, _ => false
  end.

(** An object: its class and its attributes.  Python does not check the
    annotation [hp: HParams], so [get_system] receives any object. *)
Record instance : Type := {
  class_name : string;
  attributes : list (string * value)
}.

(** A raised exception with its [args]. *)
Inductive exception : Type :=
| AttributeError (args : list value)
| KeyError (args : list value).



Fixpoint find_attribute (name : string) (attrs : list (string * value))
    : option value :=
  match attrs with
  | [] => None
  | (n, v) :: attrs =>
      if String.eqb n name then Some v else find_attribute name attrs
  end.

(** [o.name] *)
Definition getattr (o : instance) (name : string) : exception + value :=
  match find_attribute name (attributes o) with
  | Some v => inr v
  | None =>
      inl (AttributeError
             [PyStr (String.append "'"
                       (String.append (class_name o)
                          (String.append "' object has no attribute '"
                             (String.append name "'"))))])
  end.

(** The dataclass [HParams] of [source/config.py], with the fields it
    declares. *)
Record HParams : Type := {
  seed : value;
  system : value;
  optimizer : value;
  nlpsolver : value;
  order : value;
  ipopt_max_iter : value;
  intervals : value;
  controls_per_interval : value;
  steps : value
}.

(** An instance of [HParams] as an object. *)
Definition hparams_instance (hp : HParams) : instance := {|
  class_name := "HParams";
  attributes :=
    [("seed"%string, seed hp); ("system"%string, system hp);
     ("optimizer"%string, optimizer hp);
     ("nlpsolver"%string, nlpsolver hp); ("order"%string, order hp);
     ("ipopt_max_iter"%string, ipopt_max_iter hp);
     ("intervals"%string, intervals hp);
     ("controls_per_interval"%string, controls_per_interval hp);
     ("steps"%string, steps hp)]
|}.

(** Modelled from the spec: the enumeration [DynamicsType], which
    [source/systems.py] imports from [source/config.py] and which that
    file does not declare.  It is taken as a plain [Enum], like the
    enumerations that [source/config.py] does declare. *)
Definition DynamicsType (name : string) : value :=
  Member "DynamicsType" name.

(** Modelled from the spec: the members of [DynamicsType], the known set
    of the specification. *)
Definition CARTPOLE : value := DynamicsType "CARTPOLE".
(** Modelled from the spec: [DynamicsType.VANDERPOL]. *)
Definition VANDERPOL : value := DynamicsType "VANDERPOL".
(** Modelled from the spec: [DynamicsType.SEIR]. *)
Definition SEIR : value := DynamicsType "SEIR".

(** The class of the object [get_system] builds. *)
Inductive FiniteHorizonControlSystem : Type :=
| CartPole
| VanDerPol
| SEIR_system.

(** [get_system(hp)]: each test reads [hp.dynamics] anew, with the same
    outcome; the first read raises when the object has no such
    attribute. *)
Definition get_system (hp : instance)
    : exception + FiniteHorizonControlSystem :=
  match getattr hp "dynamics" with
  | inl e => inl e
  | inr d =>
      if value_eqb d CARTPOLE then inr CartPole
      else if value_eqb d VANDERPOL then inr VanDerPol
      else if value_eqb d SEIR then inr SEIR_system
      else inl (KeyError [])
  end.



(** [occurs s msg]: the text [s] occurs inside [msg]. *)
Fixpoint occurs (s msg : string) : bool :=
  String.prefix s msg
  || match msg with
     | EmptyString => false
     | String _ msg => occurs s msg
     end.


End Systems.

(** The dynamics and costs of the systems that [source/systems.py]
    packages. *)
Module SystemsDynamics.
Section dynamics.
Context {F : Type} `{Scalar F, Trig F}.

(** The physical parameters a [CartPole] object holds. *)
Record CartPole : Type := {
  m1 : F; m2 : F; l : F; g : F; u_max : F; d_max : F; d : F
}.

(** [CartPole()] *)
Definition cart_pole : CartPole := {|
  m1 := lit 1.0%Q; m2 := lit 0.3%Q; l := lit 0.5%Q; g := lit 9.81%Q;
  u_max := of_int 20; d_max := lit 2.0%Q; d := lit 1.0%Q
|}.

(** [CartPole.dynamics(self, x_t, u_t)] *)
Definition cartpole_dynamics (self : CartPole) (x_t : vec F) (u_t : F)
    : option (vec F) :=
  match x_t with
  | [q1; q2; q1_dot; q2_dot] =>
      let q1_ddot :=
        fdiv
          (fadd
             (fadd (fmul (fmul (fmul (l self) (m2 self)) (fsin q2))
                         (fsq q2_dot))
                   u_t)
             (fmul (fmul (fmul (m2 self) (g self)) (fcos q2)) (fsin q2)))
          (fadd (m1 self)
                (fmul (m2 self) (fsub (lit 1%Q) (fsq (fcos q2))))) in
      let q2_ddot :=
        fdiv
          (fneg
             (fadd
                (fadd (fmul (fmul (fmul (l self) (m2 self)) (fcos q2))
                            (fsq q2_dot))
                      (fmul u_t (fcos q2)))
                (fmul (fmul (fadd (m1 self) (m2 self)) (g self))
                      (fsin q2))))
          (fadd (fmul (l self) (m1 self))
                (fmul (fmul (l self) (m2 self))
                      (fsub (lit 1%Q) (fsq (fcos q2))))) in
      Some [q1_dot; q2_dot; q1_ddot; q2_ddot]
  | _ => None
  end.

(** [CartPole.cost] *)
Definition cartpole_cost (x_t : vec F) (u_t : F) : F := fsq u_t.

End dynamics.
End SystemsDynamics.

(** ** Sample inputs *)

Module Examples.
Import Codec.

(** A collocation problem with one interval, on the reals, set up as the
    script does: [flat, unravel = ravel_pytree(initial_variables)]. *)
Definition hs_states : matrix R := [[0; 0; 0; 0]; [1; 2; 3; 4]]%R.
Definition hs_mid_states : matrix R := [[1; 1; 1; 1]]%R.
Definition hs_controls : vec R := [5; 6]%R.
Definition hs_mid_controls : vec R := [7]%R.
Definition hs_variables : list (array R) :=
  [Arr2 4 hs_states; Arr2 4 hs_mid_states;
   Arr1 hs_controls; Arr1 hs_mid_controls].
Definition hs_flat : vec R := (ravel_pytree hs_variables).1.
Definition hs_unravel : vec R -> option (matrix R * matrix R * vec R * vec R) :=
  unpack4 (ravel_pytree hs_variables).2.

(** A multiple-shooting problem with two segments, on the rationals, and
    a second decision vector with other segment start states. *)
Definition ms_starting_xs : matrix Q := [[0; 1]; [1 # 2; 1 # 4]]%Q.
Definition ms_other_xs : matrix Q := [[3; 3]; [7; 9]]%Q.
Definition ms_us : vec Q := [1 # 2; - (1 # 4)]%Q.
Definition ms_variables : list (array Q) :=
  [Arr2 2 ms_starting_xs; Arr1 ms_us].
Definition ms_flat : vec Q := (ravel_pytree ms_variables).1.
Definition ms_other_flat : vec Q :=
  (ravel_pytree [Arr2 2 ms_other_xs; Arr1 ms_us]).1.
Definition ms_unravel : vec Q -> option (matrix Q * vec Q) :=
  unpack2 (ravel_pytree ms_variables).2.


Definition seir_request : Systems.instance := {|
  Systems.class_name := "SimpleNamespace";
  Systems.attributes := [("dynamics"%string, Systems.SEIR)]
|}.

(** Decision vectors of the one-interval collocation problem with other
    states, and with another midpoint control. *)
Definition hs_other_flat : vec R :=
  (ravel_pytree
     [Arr2 4 [[9; 8; 7; 6]; [5; 4; 3; 2]]%R; Arr2 4 [[2; 2; 2; 2]]%R;
      Arr1 hs_controls; Arr1 hs_mid_controls]).1.
Definition hs_other_mid_flat : vec R :=
  (ravel_pytree
     [Arr2 4 hs_states; Arr2 4 hs_mid_states;
      Arr1 hs_controls; Arr1 [8]%R]).1.

(** One interval of length two on which the defect and the interpolation
    constraint vanish: the pole hangs at angle zero, the cart moves from
    [0] to [2] at speed one, and the force is [4] at the nodes and [-2] at
    the midpoint, so that the accelerations are not zero. *)
Definition push_states : matrix R := [[0; 0; 1; 0]; [2; 0; 1; 0]]%R.
Definition push_mid_states : matrix R := [[1; 0; 1; 0]]%R.
Definition push_controls : vec R := [4; 4]%R.
Definition push_mid_controls : vec R := [-2]%R.

(** Two node states with two midpoint states between them. *)
Definition misfit_variables : list (array R) :=
  [Arr2 4 hs_states; Arr2 4 [[1; 1; 1; 1]; [2; 2; 2; 2]]%R;
   Arr1 hs_controls; Arr1 hs_mid_controls].
Definition misfit_flat : vec R := (ravel_pytree misfit_variables).1.
Definition misfit_unravel
    : vec R -> option (matrix R * matrix R * vec R * vec R) :=
  unpack4 (ravel_pytree misfit_variables).2.

(** A one-interval collocation problem on the rationals. *)
Definition q_states : matrix Q := [[0; 0; 0; 0]; [1; 2; 3; 4]]%Q.
Definition q_mid_states : matrix Q := [[1; 1; 1; 1]]%Q.
Definition q_controls : vec Q := [1 # 2; - (1 # 3)]%Q.
Definition q_mid_controls : vec Q := [1 # 4]%Q.
Definition q_variables : list (array Q) :=
  [Arr2 4 q_states; Arr2 4 q_mid_states;
   Arr1 q_controls; Arr1 q_mid_controls].
Definition q_flat : vec Q := (ravel_pytree q_variables).1.
Definition q_unravel
    : vec Q -> option (matrix Q * matrix Q * vec Q * vec Q) :=
  unpack4 (ravel_pytree q_variables).2.

(** The multiple-shooting decision vector whose segment start states are
    the states of the trajectory under [ms_us]. *)
Definition trajectory_xs : matrix Q :=
  (fun k => VanDerPol.state_after VanDerPol.x0 ms_us k) <$> seq 0 2.
Definition trajectory_flat : vec Q :=
  (ravel_pytree [Arr2 2 trajectory_xs; Arr1 ms_us]).1.

End Examples.

(** * Properties *)

(** ** The code on small inputs *)

Section evaluation.
Import Examples.

(** Between the nodes the interpolant is the parabola through the three
    control values: through [0], [1], [2] it is the line [2 t]. *)
Example control_interpolation_between_nodes :
  Qred <$> HermiteSimpson.hs_control_interpolation
             [0; 2]%Q [1]%Q 1%Q (1 # 4)%Q
  = Some (1 # 2)%Q.
Proof. reflexivity. Qed.

Example integrate_fwd_without_controls :
  VanDerPol.integrate_fwd (F := Q) [] = Some ([0; 1]%Q, []).
Proof. reflexivity. Qed.

Example single_shooting_defect_without_controls :
  SingleShooting.equality_constraints (F := Q) []
  = Some [0 - 0; 1 - 0]%Q.
Proof. reflexivity. Qed.

Example flatten_sample :
  ms_flat = [0; 1; 1 # 2; 1 # 4; 1 # 2; - (1 # 4)]%Q.
Proof. reflexivity. Qed.

Example unflatten_rejects_other_sizes :
  ms_unravel [0; 1; 2]%Q = None.
Proof. reflexivity. Qed.

(** The rows of the last node in the float64 table for one interval,
    whatever the fresh arrays contained. *)
Example last_node_rows_binary64 :
  (fun t => take 4 (drop 4 t))
    <$> HermiteSimpson.bounds (F := float) 1
          (fun _ _ => PrimFloat.nan) (fun _ _ => PrimFloat.nan)
          (fun _ _ => PrimFloat.nan)
  = Some [[HermiteSimpson.dist; HermiteSimpson.dist]; [fpi; fpi];
          [0%float; 0%float]; [0%float; 0%float]].
Proof. vm_compute. reflexivity. Qed.

Example get_system_known_type :
  Systems.get_system Examples.seir_request = inr Systems.SEIR_system.
Proof. reflexivity. Qed.

End evaluation.

(** ** Lists and batched maps *)

Section list_facts.
Context {A : Type}.
Implicit Types l : list A.

Lemma but_last_length l : length (but_last l) = length l - 1.
Proof. unfold but_last. rewrite length_take. lia. Qed.

Lemma but_first_length l : length (but_first l) = length l - 1.
Proof. unfold but_first. by rewrite length_drop. Qed.

Lemma but_last_lookup l k : S k < length l -> but_last l !! k = l !! k.
Proof. intros Hk. unfold but_last. apply lookup_take_lt. lia. Qed.

Lemma but_first_lookup l k : but_first l !! k = l !! S k.
Proof. unfold but_first. by rewrite lookup_drop. Qed.

Lemma seq_fmap_lookup (g : nat -> A) (n j : nat) :
  j < n -> (g <$> seq 0 n) !! j = Some (g j).
Proof. intros Hj. by rewrite list_lookup_fmap, lookup_seq_lt. Qed.

(** With operands of the same length, broadcasting is the pointwise
    operation. *)
Lemma broadcast_same_length (op : A -> A -> option A) (a b : list A) :
  length a = length b ->
  broadcast op a b = mapM (fun p => op p.1 p.2) (zip a b).
Proof.
  intros Hlen. unfold broadcast.
  destruct a as [|x [|x' a]], b as [|y [|y' b]]; try discriminate; try done.
  all: by rewrite decide_True.
Qed.

Lemma concat_seq_length (h : nat -> list A) (w n : nat) :
  (forall i, i < n -> length (h i) = w) ->
  length (concat (h <$> seq 0 n)) = n * w.
Proof.
  induction n as [|n IHn]; intros Hw; [done|].
  rewrite seq_S, fmap_app, concat_app, length_app. simpl.
  rewrite app_nil_r, IHn, Hw; [lia|lia|].
  intros i Hi. apply Hw. lia.
Qed.

(** A concatenation of [n] rows of width [w] has entry [j] of row [k] at
    position [k * w + j]. *)
Lemma concat_seq_lookup (h : nat -> list A) (w n k j : nat) :
  (forall i, i < n -> length (h i) = w) -> k < n -> j < w ->
  concat (h <$> seq 0 n) !! (k * w + j) = h k !! j.
Proof.
  intros Hw. revert k. induction n as [|n IH]; intros k Hk Hj; [lia|].
  rewrite seq_S, fmap_app, concat_app. simpl. rewrite app_nil_r.
  assert (Hlen : length (concat (h <$> seq 0 n)) = n * w).
  { apply concat_seq_length. intros i Hi. apply Hw. lia. }
  destruct (decide (k = n)) as [->|Hne].
  - rewrite lookup_app_r by lia. f_equal. lia.
  - rewrite lookup_app_l by nia. apply IH; [|lia..].
    intros i Hi. apply Hw. lia.
Qed.

End list_facts.

Section vmap_facts.

(** A batched function whose result on element [k] is [h k] returns the
    list of the [h k]. *)
Lemma vmap6_seq {A1 A2 A3 A4 A5 A6 C : Type}
    (g : A1 -> A2 -> A3 -> A4 -> A5 -> A6 -> option C) (h : nat -> C)
    (n : nat) a1 a2 a3 a4 a5 a6 :
  length a1 = n -> length a2 = n -> length a3 = n ->
  length a4 = n -> length a5 = n -> length a6 = n ->
  (forall k x1 x2 x3 x4 x5 x6,
      a1 !! k = Some x1 -> a2 !! k = Some x2 -> a3 !! k = Some x3 ->
      a4 !! k = Some x4 -> a5 !! k = Some x5 -> a6 !! k = Some x6 ->
      g x1 x2 x3 x4 x5 x6 = Some (h k)) ->
  vmap6 g a1 a2 a3 a4 a5 a6 = Some (h <$> seq 0 n).
Proof.
  revert h a1 a2 a3 a4 a5 a6.
  induction n as [|n IH]; intros h a1 a2 a3 a4 a5 a6 L1 L2 L3 L4 L5 L6 Hg.
  - by destruct a1, a2, a3, a4, a5, a6.
  - destruct a1 as [|x1 r1], a2 as [|x2 r2], a3 as [|x3 r3],
      a4 as [|x4 r4], a5 as [|x5 r5], a6 as [|x6 r6]; try discriminate.
    simpl in *.
    rewrite (Hg 0 x1 x2 x3 x4 x5 x6) by done. simpl.
    rewrite (IH (h ∘ S)); [|lia..|].
    + simpl. by rewrite <- fmap_S_seq, <- list_fmap_compose.
    + intros k y1 y2 y3 y4 y5 y6 ? ? ? ? ? ?. by apply (Hg (S k)).
Qed.

Lemma vmap2_seq {A1 A2 C : Type}
    (g : A1 -> A2 -> option C) (h : nat -> C) (n : nat) a1 a2 :
  length a1 = n -> length a2 = n ->
  (forall k x1 x2, a1 !! k = Some x1 -> a2 !! k = Some x2 ->
                   g x1 x2 = Some (h k)) ->
  vmap2 g a1 a2 = Some (h <$> seq 0 n).
Proof.
  revert h a1 a2.
  induction n as [|n IH]; intros h a1 a2 L1 L2 Hg.
  - by destruct a1, a2.
  - destruct a1 as [|x1 r1], a2 as [|x2 r2]; try discriminate.
    simpl in *.
    rewrite (Hg 0 x1 x2) by done. simpl.
    rewrite (IH (h ∘ S)); [|lia..|].
    + simpl. by rewrite <- fmap_S_seq, <- list_fmap_compose.
    + intros k y1 y2 ? ?. by apply (Hg (S k)).
Qed.

End vmap_facts.

(** ** Hermite-Simpson transcription *)

Section hs_facts.
Import HermiteSimpson.
Context {F : Type} `{Scalar F, Trig F}.
Variable horizon : F.
Variable nintervals : nat.
Variable unravel : vec F -> option (matrix F * matrix F * vec F * vec F).
Variables states mid_states : matrix F.
Variables controls mid_controls : vec F.

Local Abbreviation dt := (interval_duration horizon nintervals).

Local Ltac four x Hx :=
  destruct x as [|? [|? [|? [|? [|? ?]]]]]; try discriminate Hx.

(** The arguments the batched functions receive for interval [k] are the
    nodes [k] and [k+1]. *)
Lemma interval_args_lookup N k s s' c c' :
  length states = S N -> length controls = S N ->
  but_last states !! k = Some s -> but_first states !! k = Some s' ->
  but_last controls !! k = Some c -> but_first controls !! k = Some c' ->
  states !! k = Some s /\ states !! S k = Some s'
  /\ controls !! k = Some c /\ controls !! S k = Some c'.
Proof.
  intros Ls Lc Hs Hs' Hc Hc'.
  assert (k < N).
  { apply lookup_lt_Some in Hs. rewrite but_last_length in Hs. lia. }
  rewrite but_last_lookup in Hs by lia.
  rewrite but_last_lookup in Hc by lia.
  rewrite but_first_lookup in Hs'. rewrite but_first_lookup in Hc'. done.
Qed.

Lemma hs_defect_value k s m s' c mc c' :
  states !! k = Some s -> mid_states !! k = Some m ->
  states !! S k = Some s' -> controls !! k = Some c ->
  mid_controls !! k = Some mc -> controls !! S k = Some c' ->
  length s = 4 -> length m = 4 -> length s' = 4 ->
  hs_defect horizon nintervals s m s' c mc c'
  = Some (defect_value dt states mid_states controls mid_controls k
            <$> seq 0 4).
Proof.
  intros Hs Hm Hs' Hc Hmc Hc' L1 L2 L3.
  cbn [fmap list_fmap seq].
  unfold defect_value, dynamics_at, row, entry.
  rewrite Hs, Hm, Hs', Hc, Hmc, Hc'.
  four s L1. four m L2. four s' L3. reflexivity.
Qed.

Lemma hs_interpolation_value k s m s' c mc c' :
  states !! k = Some s -> mid_states !! k = Some m ->
  states !! S k = Some s' -> controls !! k = Some c ->
  controls !! S k = Some c' ->
  length s = 4 -> length m = 4 -> length s' = 4 ->
  hs_interpolation horizon nintervals s m s' c mc c'
  = Some (interpolation_value dt states mid_states controls k <$> seq 0 4).
Proof.
  intros Hs Hm Hs' Hc Hc' L1 L2 L3.
  cbn [fmap list_fmap seq].
  unfold interpolation_value, dynamics_at, row, entry.
  rewrite Hs, Hm, Hs', Hc, Hc'.
  four s L1. four m L2. four s' L3. reflexivity.
Qed.

Lemma hs_cost_value k s m s' c mc c' :
  states !! k = Some s -> mid_states !! k = Some m ->
  states !! S k = Some s' -> controls !! k = Some c ->
  mid_controls !! k = Some mc -> controls !! S k = Some c' ->
  hs_cost horizon nintervals s m s' c mc c'
  = Some (simpson_cost dt states mid_states controls mid_controls k).
Proof.
  intros Hs Hm Hs' Hc Hmc Hc'.
  unfold simpson_cost, hs_cost, row, entry.
  by rewrite Hs, Hm, Hs', Hc, Hmc, Hc'.
Qed.

End hs_facts.

Section hs_claims.
Import HermiteSimpson.
Context {F : Type} `{Scalar F, Trig F}.
Variable horizon : F.
Variable nintervals : nat.
Variable unravel : vec F -> option (matrix F * matrix F * vec F * vec F).

Local Abbreviation dt := (interval_duration horizon nintervals).

(** C1. On decision variables that unravel to [N+1] node states and
    controls and [N] midpoint states and controls, the states of
    dimension four, [equality_constraints] returns [4 * N] values, and
    the value at position [4 * k + j] (intervals outer, state dimension
    inner) is the Hermite-Simpson defect
    [state_{k+1} - state_k - (dt/6)*(f_k + 4*f_mid + f_{k+1})] of interval
    [k] in dimension [j]. *)
Theorem equality_constraints_are_defects
    (flat : vec F) (states mid_states : matrix F)
    (controls mid_controls : vec F) (N : nat) :
  unravel flat = Some (states, mid_states, controls, mid_controls) ->
  length states = S N -> length mid_states = N ->
  length controls = S N -> length mid_controls = N ->
  Forall (fun s => length s = 4) states ->
  Forall (fun s => length s = 4) mid_states ->
  exists d,
    equality_constraints horizon nintervals unravel flat = Some d
    /\ length d = 4 * N
    /\ forall k j, k < N -> j < 4 ->
         d !! (4 * k + j)
         = Some (defect_value dt states mid_states controls mid_controls
                   k j).
Proof.
  intros Hun Ls Lm Lc Lmc Ws Wm.
  unfold equality_constraints, batched_defects. rewrite Hun. cbn [mbind option_bind].
  rewrite (vmap6_seq _
    (fun k => defect_value dt states mid_states controls mid_controls k
                <$> seq 0 4) N);
    rewrite ?but_last_length, ?but_first_length; try lia.
  - eexists. split; [done|]. unfold np_ravel. split.
    + rewrite (concat_seq_length _ 4); [lia|].
      intros i _. reflexivity.
    + intros k j Hk Hj. rewrite (Nat.mul_comm 4 k).
      rewrite (concat_seq_lookup _ 4) by
        (try lia; intros i _; reflexivity).
      by apply seq_fmap_lookup.
  - intros k s m s' c mc c' Hs Hm Hs' Hc Hmc Hc'.
    destruct (interval_args_lookup states controls N k s s' c c')
      as (Ks & Ks' & Kc & Kc'); try done.
    apply hs_defect_value; try done.
    + by apply (Forall_lookup_1 _ _ _ _ Ws Ks).
    + by apply (Forall_lookup_1 _ _ _ _ Wm Hm).
    + by apply (Forall_lookup_1 _ _ _ _ Ws Ks').
Qed.

(** C2. Under the same shapes, [interpolation_constraints], a function of
    its own next to [equality_constraints], returns [4 * N] values, and
    the value at position [4 * k + j] is
    [mid_state_k - (1/2)*(state_k + state_{k+1}) - (dt/8)*(f_k - f_{k+1})]
    in dimension [j]. *)
Theorem interpolation_constraints_are_midpoint_residuals
    (flat : vec F) (states mid_states : matrix F)
    (controls mid_controls : vec F) (N : nat) :
  unravel flat = Some (states, mid_states, controls, mid_controls) ->
  length states = S N -> length mid_states = N ->
  length controls = S N -> length mid_controls = N ->
  Forall (fun s => length s = 4) states ->
  Forall (fun s => length s = 4) mid_states ->
  exists d,
    interpolation_constraints horizon nintervals unravel flat = Some d
    /\ length d = 4 * N
    /\ forall k j, k < N -> j < 4 ->
         d !! (4 * k + j)
         = Some (interpolation_value dt states mid_states controls k j).
Proof.
  intros Hun Ls Lm Lc Lmc Ws Wm.
  unfold interpolation_constraints, batched_interpolations.
  rewrite Hun. cbn [mbind option_bind].
  rewrite (vmap6_seq _
    (fun k => interpolation_value dt states mid_states controls k
                <$> seq 0 4) N);
    rewrite ?but_last_length, ?but_first_length; try lia.
  - eexists. split; [done|]. unfold np_ravel. split.
    + rewrite (concat_seq_length _ 4); [lia|].
      intros i _. reflexivity.
    + intros k j Hk Hj. rewrite (Nat.mul_comm 4 k).
      rewrite (concat_seq_lookup _ 4) by
        (try lia; intros i _; reflexivity).
      by apply seq_fmap_lookup.
  - intros k s m s' c mc c' Hs Hm Hs' Hc Hmc Hc'.
    destruct (interval_args_lookup states controls N k s s' c c')
      as (Ks & Ks' & Kc & Kc'); try done.
    apply hs_interpolation_value; try done.
    + by apply (Forall_lookup_1 _ _ _ _ Ws Ks).
    + by apply (Forall_lookup_1 _ _ _ _ Wm Hm).
    + by apply (Forall_lookup_1 _ _ _ _ Ws Ks').
Qed.

(** C3. Under the same lengths, the objective is the sum over the
    intervals [k = 0 .. N-1] of the Simpson quadrature
    [(dt/6)*(cost_k + 4*cost_mid + cost_{k+1})] of the instantaneous
    cost. *)
Theorem objective_is_simpson_quadrature
    (flat : vec F) (states mid_states : matrix F)
    (controls mid_controls : vec F) (N : nat) :
  unravel flat = Some (states, mid_states, controls, mid_controls) ->
  length states = S N -> length mid_states = N ->
  length controls = S N -> length mid_controls = N ->
  objective horizon nintervals unravel flat
  = Some (np_sum (simpson_cost dt states mid_states controls mid_controls
                    <$> seq 0 N)).
Proof.
  intros Hun Ls Lm Lc Lmc.
  unfold objective, batched_cost. rewrite Hun. cbn [mbind option_bind].
  rewrite (vmap6_seq _
    (simpson_cost dt states mid_states controls mid_controls) N);
    rewrite ?but_last_length, ?but_first_length; try lia; [done|].
  intros k s m s' c mc c' Hs Hm Hs' Hc Hmc Hc'.
  destruct (interval_args_lookup states controls N k s s' c c')
    as (Ks & Ks' & Kc & Kc'); try done.
  by apply hs_cost_value.
Qed.

End hs_claims.

(** ** Codec *)

Section codec_facts.
Import Codec.
Context {F : Type}.
Implicit Types (a : array F) (tree : list (array F)).

Lemma concat_uniform_length (rows : list (list F)) (c : nat) :
  Forall (fun r => length r = c) rows ->
  length (concat rows) = length rows * c.
Proof.
  induction 1 as [|r rows Hr _ IH]; [done|].
  simpl. rewrite length_app, IH, Hr. done.
Qed.

(** Cutting the row-major data of a rectangular array at its width gives
    back its rows. *)
Lemma reshape_concat (rows : list (list F)) (c : nat) :
  Forall (fun r => length r = c) rows ->
  reshape (length rows) c (concat rows) = rows.
Proof.
  induction 1 as [|r rows Hr _ IH]; [done|].
  unfold reshape in *. cbn [length seq fmap list_fmap concat].
  rewrite Nat.mul_0_l, drop_0, take_app_length' by done. f_equal.
  change (list_fmap nat (vec F)) with (@fmap list _ nat (vec F)).
  rewrite <- fmap_S_seq, <- list_fmap_compose.
  rewrite <- IH at 2. apply list_fmap_ext. intros _ i _. simpl.
  by rewrite drop_app_add' by done.
Qed.

Lemma size_shape_of a :
  well_typed a -> size (shape_of a) = length (ravel a).
Proof.
  destruct a as [v|c rows]; simpl; [done|].
  intros Hw. by rewrite (concat_uniform_length rows c).
Qed.

Lemma unravel_array_ravel a :
  well_typed a -> unravel_array (shape_of a) (ravel a) = a.
Proof.
  destruct a as [v|c rows]; simpl; intros Hw.
  - by rewrite firstn_all.
  - by rewrite reshape_concat.
Qed.

Lemma unravel_list_ravel tree (rest : list F) :
  Forall well_typed tree ->
  unravel_list (shape_of <$> tree) (concat (ravel <$> tree) ++ rest)
  = tree.
Proof.
  induction 1 as [|a tree Ha _ IH]; [done|].
  rewrite !fmap_cons. cbn [concat unravel_list]. rewrite <- app_assoc.
  rewrite take_app_length', drop_app_length' by by apply size_shape_of.
  by rewrite unravel_array_ravel, IH.
Qed.

Lemma ravel_total_size tree :
  Forall well_typed tree ->
  length (concat (ravel <$> tree)) = total_size (shape_of <$> tree).
Proof.
  unfold total_size.
  induction 1 as [|a tree Ha _ IH]; [done|].
  rewrite !fmap_cons. cbn [concat sum_list sum_list_with].
  by rewrite length_app, IH, size_shape_of.
Qed.

(** C4. For a tuple of well-typed arrays, unflattening the flattened
    vector gives the tuple back, entry for entry: the result is the
    original tuple, so with the original shapes, and the flat vector has
    as many elements as the shapes of the tuple hold together. *)
Theorem unflatten_flatten_roundtrip tree :
  Forall well_typed tree ->
  exists result,
    (ravel_pytree tree).2 (ravel_pytree tree).1 = Some result
    /\ result = tree
    /\ shape_of <$> result = shape_of <$> tree
    /\ length (ravel_pytree tree).1 = total_size (shape_of <$> tree).
Proof.
  intros Hw. exists tree. unfold ravel_pytree. simpl.
  rewrite decide_True by by apply ravel_total_size.
  split; [|by auto using ravel_total_size].
  f_equal. rewrite <- (app_nil_r (concat _)). by apply unravel_list_ravel.
Qed.

End codec_facts.

(** ** Control interpolant *)

Section interpolation_facts.
Import HermiteSimpson.

Lemma getitem_nat {A : Type} (a : list A) (k : nat) :
  k < length a -> getitem a (Z.of_nat k) = a !! k.
Proof.
  intros Hk. unfold getitem.
  destruct (Z.ltb_spec (Z.of_nat k) 0) as [Hneg|_]; [lia|].
  f_equal. lia.
Qed.

Lemma Qfloor_unique (q : Q) (z : Z) :
  (inject_Z z <= q)%Q -> (q < inject_Z (z + 1))%Q -> Qfloor q = z.
Proof.
  intros Hlo Hhi.
  pose proof (Qfloor_le q) as Hfl. pose proof (Qlt_floor q) as Hfu.
  apply Z.le_antisymm.
  - apply Z.lt_succ_r. rewrite Zlt_Qlt. unfold Z.succ.
    eapply Qle_lt_trans; eassumption.
  - apply Z.lt_succ_r. rewrite Zlt_Qlt. unfold Z.succ.
    eapply Qle_lt_trans; eassumption.
Qed.

Lemma Qceiling_unique (q : Q) (z : Z) :
  (inject_Z (z - 1) < q)%Q -> (q <= inject_Z z)%Q -> Qceiling q = z.
Proof.
  intros Hlo Hhi. unfold Qceiling.
  rewrite (Qfloor_unique (- q) (- z)); [lia| |].
  - rewrite inject_Z_opp. by apply Qopp_le_compat.
  - replace (- z + 1)%Z with (- (z - 1))%Z by lia.
    rewrite inject_Z_opp. by apply Qopp_lt_compat.
Qed.

(** At a node time the quotient [t/dt] is the node index. *)
Lemma node_quotient (dt : Q) (k : nat) :
  ~ (dt == 0)%Q ->
  Qfloor (inject_Z (Z.of_nat k) * dt / dt) = Z.of_nat k
  /\ Qceiling (inject_Z (Z.of_nat k) * dt / dt) = Z.of_nat k.
Proof.
  intros Hdt.
  assert (Hq : (inject_Z (Z.of_nat k) * dt / dt == inject_Z (Z.of_nat k))%Q)
    by (field; done).
  rewrite Hq. by rewrite Qfloor_Z, Qceiling_Z.
Qed.

(** At a midpoint time it lies half-way between two indices. *)
Lemma midpoint_quotient (dt : Q) (k : nat) :
  ~ (dt == 0)%Q ->
  Qfloor ((inject_Z (Z.of_nat k) * dt + dt / 2) / dt) = Z.of_nat k
  /\ Qceiling ((inject_Z (Z.of_nat k) * dt + dt / 2) / dt)
     = (Z.of_nat k + 1)%Z.
Proof.
  intros Hdt.
  assert (Hq : ((inject_Z (Z.of_nat k) * dt + dt / 2) / dt
                == inject_Z (Z.of_nat k) + (1 # 2))%Q) by (field; done).
  rewrite Hq. split.
  - apply Qfloor_unique.
    + rewrite <- (Qplus_0_r (inject_Z _)) at 1.
      by apply Qplus_le_r.
    + rewrite inject_Z_plus. by apply Qplus_lt_r.
  - apply Qceiling_unique.
    + replace (Z.of_nat k + 1 - 1)%Z with (Z.of_nat k) by lia.
      rewrite <- (Qplus_0_r (inject_Z _)) at 1.
      by apply Qplus_lt_r.
    + rewrite inject_Z_plus. by apply Qplus_le_r.
Qed.

End interpolation_facts.

Section interpolation_claims.
Import HermiteSimpson.

(** C5, as the specification states it, read on the float64 arithmetic of
    the script: with the script's own step [dt = 2/20], all node controls
    [0.0] and all midpoint controls [1.0], the interpolant at the
    midpoint time of interval 5 is [0.9999999999999999], not [1.0]. *)
Lemma control_interpolation_inexact_in_binary64 :
  ~ reproduces_collocation_values (F := float)
      (fun a b => PrimFloat.eqb a b = true)
      (replicate 21 0%float) (replicate 20 1%float)
      (fdiv (lit 2%Q) (of_int 20)) 5.
Proof.
  intros [_ Hmid].
  destruct (Hmid 0%float 1%float 0%float eq_refl eq_refl eq_refl)
    as (v & Hv & Heq).
  vm_compute in Hv. injection Hv as <-.
  vm_compute in Heq. discriminate.
Qed.

(** C5, amended: in exact rational arithmetic, for a step [dt <> 0], the
    interpolant returns [controls[k]] at the node time [k * dt], and a
    value equal to [mid_controls[k]] at the midpoint time
    [k * dt + dt/2]. *)
Theorem control_interpolation_exact_on_rationals
    (controls mid_controls : list Q) (dt : Q) (k : nat) :
  ~ (dt == 0)%Q ->
  reproduces_collocation_values Qeq controls mid_controls dt k.
Proof.
  intros Hdt. split.
  - intros c Hc. exists c. split; [|reflexivity].
    unfold hs_control_interpolation, node_time.
    cbn [int_floor int_ceil Q_rounding fdiv fmul Q_scalar of_int lit].
    destruct (node_quotient dt k Hdt) as [-> ->].
    cbn [mbind option_bind]. rewrite decide_True by done.
    rewrite getitem_nat; [done|]. by apply lookup_lt_Some in Hc.
  - intros c m c' Hc Hm Hc'.
    unfold hs_control_interpolation, midpoint_time, node_time.
    cbn [int_floor int_ceil Q_rounding fdiv fmul fadd fsub fsq Q_scalar
           of_int lit].
    destruct (midpoint_quotient dt k Hdt) as [-> ->].
    cbn [mbind option_bind]. rewrite decide_False by lia.
    replace (Z.of_nat k + 1)%Z with (Z.of_nat (S k)) by lia.
    rewrite !getitem_nat by (eapply lookup_lt_Some; eassumption).
    rewrite Hc, Hm, Hc'. cbn [mbind option_bind].
    eexists. split; [reflexivity|]. field. done.
Qed.

Lemma control_interpolation_exact_on_rationals_witness :
  ~ (1 # 10 == 0)%Q
  /\ reproduces_collocation_values Qeq
       [3; 1; 4; 1]%Q [2; 7; 5]%Q (1 # 10) 1.
Proof.
  split; [discriminate|].
  apply (control_interpolation_exact_on_rationals
           [3; 1; 4; 1]%Q [2; 7; 5]%Q (1 # 10) 1).
  discriminate.
Defined.

End interpolation_claims.

(** ** Shooting *)

Section shooting_facts.
Import VanDerPol.
Context {F : Type} `{Scalar F}.
Implicit Types (x : vec F) (us : vec F) (u : F).

Local Ltac two x Hx := destruct x as [|? [|? [|? ?]]]; try discriminate Hx.

(** On a two-dimensional state the step of the scripts is the classical
    Runge-Kutta step of the Van der Pol field. *)
Lemma rk4_step_classical x u :
  length x = 2 -> rk4_step x u = Some (step x u).
Proof. intros Hx. two x Hx. reflexivity. Qed.

Lemma single_rk4_step_classical x u :
  length x = 2 -> MultipleShooting.single_rk4_step x u = Some (step x u).
Proof. intros Hx. two x Hx. reflexivity. Qed.

Lemma step_length x u : length x = 2 -> length (step x u) = 2.
Proof. intros Hx. two x Hx. reflexivity. Qed.

Lemma state_after_length x us k :
  length x = 2 -> length (state_after x us k) = 2.
Proof.
  intros Hx. induction k as [|k IH]; [done|]. simpl. by apply step_length.
Qed.

Lemma state_after_cons x u us k :
  state_after x (u :: us) (S k) = state_after (step x u) us k.
Proof.
  induction k as [|k IH]; [done|].
  change (state_after x (u :: us) (S (S k)))
    with (step (state_after x (u :: us) (S k)) (entry (u :: us) (S k))).
  by rewrite IH.
Qed.

Lemma fn_value x u :
  length x = 2 -> fn x u = Some (step x u, step x u).
Proof. intros Hx. unfold fn. by rewrite rk4_step_classical. Qed.

(** The scan threads the state through the controls one after the other. *)
Lemma scan_fn_state_after us x :
  length x = 2 ->
  scan fn x us
  = Some (state_after x us (length us),
          (fun k => state_after x us (S k)) <$> seq 0 (length us)).
Proof.
  revert x. induction us as [|u us IH]; intros x Hx; [done|].
  cbn [scan]. rewrite fn_value by done.
  cbn [mbind option_bind fst snd].
  rewrite IH by by apply step_length.
  cbn [mbind option_bind fst snd length seq fmap list_fmap].
  rewrite state_after_cons.
  change (list_fmap nat (vec F)) with (@fmap list _ nat (vec F)).
  rewrite <- fmap_S_seq, <- list_fmap_compose.
  f_equal. f_equal. f_equal.
  apply list_fmap_ext. intros _ k _. simpl. by rewrite <- state_after_cons.
Qed.

Lemma c_value x u :
  length x = 2 ->
  c x u = Some (fadd (np_sum (zip_with fmul x x)) (fsq u)).
Proof. intros Hx. two x Hx. reflexivity. Qed.

(** The trajectory cost is defined for every control sequence. *)
Lemma vector_c_trajectory us :
  vector_c ((fun k => state_after x0 us (S k)) <$> seq 0 (length us)) us
  = Some ((fun k =>
             let x := state_after x0 us (S k) in
             fadd (np_sum (zip_with fmul x x)) (fsq (entry us k)))
            <$> seq 0 (length us)).
Proof.
  apply vmap2_seq; [by rewrite length_fmap, length_seq|done|].
  intros k x u Hx Hu.
  rewrite seq_fmap_lookup in Hx by by eapply lookup_lt_Some.
  injection Hx as <-.
  assert (Hu' : entry us k = u) by (unfold entry; by rewrite Hu).
  rewrite <- Hu'.
  rewrite c_value by by apply step_length, state_after_length.
  reflexivity.
Qed.

End shooting_facts.

Section broadcast_facts.
Context {A : Type}.

Lemma mapM_zip_vmap2 (op : A -> A -> option A) (a b : list A) :
  length a = length b ->
  mapM (fun p => op p.1 p.2) (zip a b) = vmap2 op a b.
Proof.
  revert b. induction a as [|x a IH]; intros [|y b] Hlen;
    try discriminate; [done|].
  simpl in *. by rewrite IH by lia.
Qed.

Lemma broadcast_vmap2 (op : A -> A -> option A) (a b : list A) :
  length a = length b -> broadcast op a b = vmap2 op a b.
Proof.
  intros Hlen. rewrite broadcast_same_length by done.
  by apply mapM_zip_vmap2.
Qed.

End broadcast_facts.

Section shooting_claims.
Import VanDerPol.
Context {F : Type} `{Scalar F}.
Variable unravel : vec F -> option (matrix F * vec F).

Local Ltac two x Hx := destruct x as [|? [|? [|? ?]]]; try discriminate Hx.

Lemma vsub_rows (p e : vec F) :
  length p = 2 -> length e = 2 ->
  vsub p e = Some ((fun j => fsub (entry p j) (entry e j)) <$> seq 0 2).
Proof. intros Hp He. two p Hp. two e He. reflexivity. Qed.

(** C6. On a decision vector that unravels to [N] segment start states
    of dimension two and [N] controls, the equality constraints are
    [2 * N] values; the value at position [2 * k + j] is component [j] of
    the RK4-propagated end state of segment [k] minus the start state of
    segment [k + 1], or minus [xf] for the last segment. *)
Theorem equality_constraints_are_continuity_defects
    (flat : vec F) (starting_xs : matrix F) (us : vec F) (N : nat) :
  unravel flat = Some (starting_xs, us) ->
  length starting_xs = N -> length us = N ->
  Forall (fun x => length x = 2) starting_xs ->
  exists d,
    MultipleShooting.equality_constraints unravel flat = Some d
    /\ length d = 2 * N
    /\ forall k j, k < N -> j < 2 ->
         d !! (2 * k + j)
         = Some (fsub
                   (entry (step (row starting_xs k) (entry us k)) j)
                   (entry (if decide (S k < N)
                           then row starting_xs (S k) else xf) j)).
Proof.
  intros Hun Lx Lu Wx.
  unfold MultipleShooting.equality_constraints,
    MultipleShooting.parallel_rk4_step.
  rewrite Hun. cbn [mbind option_bind].
  rewrite (vmap2_seq _ (fun k => step (row starting_xs k) (entry us k)) N)
    by (try done; intros k x u Hx Hu; unfold row, entry; rewrite Hx, Hu;
        apply single_rk4_step_classical;
        by apply (Forall_lookup_1 _ _ _ _ Wx Hx)).
  cbn [mbind option_bind].
  destruct N as [|n].
  { destruct starting_xs; [|done]. exists []. split; [done|].
    split; [done|]. intros; lia. }
  unfold msub. rewrite broadcast_vmap2
    by (rewrite length_fmap, length_seq, length_app, but_first_length;
        simpl; lia).
  rewrite (vmap2_seq _
    (fun k => (fun j => fsub
                 (entry (step (row starting_xs k) (entry us k)) j)
                 (entry (if decide (S k < S n)
                         then row starting_xs (S k) else xf) j))
              <$> seq 0 2) (S n)).
  - eexists. split; [done|]. unfold np_ravel. split.
    + rewrite (concat_seq_length _ 2); [lia|]. intros i _. reflexivity.
    + intros k j Hk Hj. rewrite (Nat.mul_comm 2 k).
      rewrite (concat_seq_lookup _ 2) by
        (try lia; intros i _; reflexivity).
      by rewrite seq_fmap_lookup.
  - by rewrite length_fmap, length_seq.
  - rewrite length_app, but_first_length. simpl. lia.
  - intros k p e Hp He.
    assert (Hk : k < S n).
    { apply lookup_lt_Some in Hp.
      by rewrite length_fmap, length_seq in Hp. }
    rewrite seq_fmap_lookup in Hp by done. injection Hp as <-.
    assert (Hrow : forall i, i < S n -> length (row starting_xs i) = 2).
    { intros i Hi. unfold row.
      destruct (lookup_lt_is_Some_2 starting_xs i) as [x Hx]; [lia|].
      rewrite Hx. by apply (Forall_lookup_1 _ _ _ _ Wx Hx). }
    assert (He' : e = if decide (S k < S n)
                      then row starting_xs (S k) else xf).
    { case_decide as Hlast.
      - rewrite lookup_app_l in He by (rewrite but_first_length; lia).
        rewrite but_first_lookup in He. unfold row. by rewrite He.
      - rewrite lookup_app_r in He by (rewrite but_first_length; lia).
        rewrite but_first_length in He.
        replace (k - (length starting_xs - 1)) with 0 in He by lia.
        by injection He as <-. }
    rewrite <- He'. apply vsub_rows.
    + by apply step_length, Hrow.
    + rewrite He'. case_decide; [apply Hrow; lia|done].
Qed.

(** C7. For every control sequence [us], [integrate_fwd] (the same
    function in both shooting scripts) returns the pair of the final state
    and the intermediate states [x_1, ..., x_N], where [x_0] is the fixed
    initial state and [x_{k+1} = step(x_k, us[k])]; the final state is
    [x_N], the last state of the trajectory; and on every
    two-dimensional state the step of the scripts is the classical
    four-stage Runge-Kutta step with the control held constant. *)
Theorem integrate_fwd_is_sequential_rk4 (us : vec F) :
  let xs := (fun k => state_after x0 us (S k)) <$> seq 0 (length us) in
  let final := state_after x0 us (length us) in
  SingleShooting.integrate_fwd us = Some (final, xs)
  /\ MultipleShooting.integrate_fwd us = Some (final, xs)
  /\ length xs = length us
  /\ last (x0 :: xs) = Some final
  /\ (forall a b u,
        rk4_step [a; b] u = Some (rk4_classical vdp step_size [a; b] u)).
Proof.
  intros xs final. subst xs final.
  unfold SingleShooting.integrate_fwd, MultipleShooting.integrate_fwd,
    integrate_fwd.
  rewrite scan_fn_state_after by done.
  repeat split.
  - by rewrite length_fmap, length_seq.
  - destruct (length us) as [|n]; [done|].
    rewrite seq_S, fmap_app, app_comm_cons. apply last_snoc.
Qed.

(** C10. Two decision vectors that unravel to the same controls [us],
    whatever their segment start states, get the same objective value,
    and it is the single-shooting objective of [us]: the cost of the
    trajectory integrated from the fixed [x0] under [us]. *)
Theorem objective_ignores_starting_states
    (v1 v2 : vec F) (xs1 xs2 : matrix F) (us : vec F) :
  unravel v1 = Some (xs1, us) ->
  unravel v2 = Some (xs2, us) ->
  exists value,
    MultipleShooting.objective unravel v1 = Some value
    /\ MultipleShooting.objective unravel v2 = Some value
    /\ SingleShooting.objective us = Some value.
Proof.
  intros Hv1 Hv2.
  unfold MultipleShooting.objective, SingleShooting.objective,
    SingleShooting.integrate_fwd, MultipleShooting.integrate_fwd,
    integrate_fwd.
  rewrite Hv1, Hv2. cbn [mbind option_bind].
  rewrite scan_fn_state_after by done. cbn [mbind option_bind fst snd].
  rewrite vector_c_trajectory. cbn [mbind option_bind].
  eexists. repeat split; reflexivity.
Qed.

End shooting_claims.

(** ** Bounds table *)

Section bounds_facts.
Import HermiteSimpson.
Context {F : Type} `{Scalar F, Extended F}.
Implicit Types (m : matrix F) (r : vec F).

Lemma set_all_replicate r m : set_all r m = replicate (length m) r.
Proof. unfold set_all. by apply const_fmap. Qed.

Lemma onp_empty_length (junk : nat -> nat -> F) rows cols :
  length (onp_empty junk rows cols) = rows.
Proof. unfold onp_empty. by rewrite length_fmap, length_seq. Qed.

(** Assigning all eight columns leaves nothing of the initial contents. *)
Lemma columns_assigned (junk : nat -> nat -> F) rows
    (v0 v1 v2 v3 v4 v5 v6 v7 : F) :
  set_col 7 v7 (set_col 6 v6 (set_col 5 v5 (set_col 4 v4
    (set_col 3 v3 (set_col 2 v2 (set_col 1 v1 (set_col 0 v0
      (onp_empty junk rows 8))))))))
  = replicate rows [v0; v1; v2; v3; v4; v5; v6; v7].
Proof.
  unfold set_col, onp_empty. rewrite <- !list_fmap_compose.
  rewrite (const_fmap _ _ [v0; v1; v2; v3; v4; v5; v6; v7]);
    [by rewrite length_seq|done].
Qed.

Lemma alter_first (g : vec F -> vec F) r m :
  alter g 0 (r :: m) = g r :: m.
Proof. reflexivity. Qed.

Lemma alter_last (g : vec F -> vec F) m r :
  alter g (last_index (m ++ [r])) (m ++ [r]) = m ++ [g r].
Proof.
  unfold last_index. rewrite length_app. simpl.
  replace (length m + 1 - 1) with (length m + 0) by lia.
  by rewrite alter_app_r.
Qed.

Lemma pairs_concat (t : matrix F) :
  Forall (fun r => length r = 2) t -> pairs (concat t) = Some t.
Proof.
  induction 1 as [|r t Hr _ IH]; [done|].
  destruct r as [|a [|b [|? ?]]]; try discriminate Hr.
  simpl. by rewrite IH.
Qed.

Lemma concat_concat_replicate (n : nat) (t : matrix F) :
  concat (replicate n (concat t)) = concat (concat (replicate n t)).
Proof.
  induction n as [|n IH]; [done|].
  simpl. by rewrite concat_app, IH.
Qed.

Lemma raw_rows_width (n : nat) :
  Forall (fun r : vec F => length r = 2)
    (concat (replicate n raw_state_bounds)).
Proof.
  induction n as [|n IH]; [constructor|].
  simpl. by repeat constructor.
Qed.

Lemma pinned_width (x : vec F) :
  Forall (fun r : vec F => length r = 2) (pinned x).
Proof. unfold pinned. apply Forall_fmap. by apply Forall_true. Qed.

Variables junk_state junk_control junk_mid_control : nat -> nat -> F.

Lemma state_bounds_rows (n : nat) :
  state_bounds (S n) junk_state
  = concat (pinned x_0)
      :: replicate n (concat raw_state_bounds) ++ [concat (pinned x_T)].
Proof.
  unfold state_bounds. cbv zeta. rewrite columns_assigned.
  unfold nvars. replace (S n + 1) with (S (S n)) by lia.
  rewrite replicate_S, replicate_S_end.
  unfold set_row, set_item.
  rewrite (alter_first _ _ (replicate n _ ++ [_])), app_comm_cons.
  rewrite !alter_last.
  reflexivity.
Qed.

Lemma state_bounds_pairs (n : nat) :
  pairs (np_ravel (state_bounds (S n) junk_state))
  = Some (pinned x_0 ++ concat (replicate n raw_state_bounds)
            ++ pinned x_T).
Proof.
  rewrite state_bounds_rows. unfold np_ravel.
  rewrite <- pairs_concat.
  - f_equal. rewrite concat_cons, !concat_app, concat_concat_replicate.
    cbn [concat]. by rewrite app_nil_r.
  - rewrite !Forall_app.
    auto using pinned_width, raw_rows_width.
Qed.

Lemma mid_state_bounds_pairs (n : nat) :
  pairs (np_ravel (mid_state_bounds (S n) junk_state))
  = Some (concat (replicate (S n) raw_state_bounds)).
Proof.
  unfold mid_state_bounds, zeros_like.
  rewrite set_all_replicate, length_fmap, but_last_length.
  rewrite state_bounds_rows. simpl length.
  rewrite length_app, length_replicate. simpl length.
  replace (S (n + 1) - 1) with (S n) by lia.
  unfold np_ravel.
  change [fmul (of_int (-2)) dist; fmul (of_int 2) dist;
          fmul (of_int (-2)) fpi; fmul (of_int 2) fpi;
          fneg finf; finf; fneg finf; finf]
    with (concat (raw_state_bounds (F := F))).
  rewrite concat_concat_replicate.
  apply pairs_concat, raw_rows_width.
Qed.

End bounds_facts.

Section bounds_claims.
Import HermiteSimpson.
Context {F : Type} `{Scalar F, Trig F, Extended F}.
Variables junk_state junk_control junk_mid_control : nat -> nat -> F.

(** C8. For [n + 1] intervals and whatever the uninitialised arrays
    held, the bounds table returned by [make_hs_nlp] is [bounds_table n]:
    the four rows of the first node are [[x_0[j], x_0[j]]], the four rows
    of the last node [[x_T[j], x_T[j]]], the rows of the [n] interior
    nodes and of the [n + 1] midpoint states the raw state bounds, and
    the rows of the [n + 2] node controls and [n + 1] midpoint controls
    the raw control bounds. *)
Theorem bounds_table_pins_boundary_nodes
    (horizon : F)
    (unravel : vec F -> option (matrix F * matrix F * vec F * vec F))
    (n : nat) :
  bounds (S n) junk_state junk_control junk_mid_control
  = Some (bounds_table n)
  /\ exists p,
       make_hs_nlp junk_state junk_control junk_mid_control
         horizon (S n) unravel = Some p
       /\ nlp_bounds p = bounds_table n.
Proof.
  assert (Hb : bounds (S n) junk_state junk_control junk_mid_control
               = Some (bounds_table n)).
  { unfold bounds.
    rewrite state_bounds_pairs, mid_state_bounds_pairs.
    cbn [mbind option_bind].
    unfold control_bounds, mid_control_bounds.
    rewrite !set_all_replicate, !onp_empty_length.
    unfold nvars, bounds_table.
    replace (S n + 1) with (S (S n)) by lia.
    replace (S (S n) - 1) with (S n) by lia.
    by rewrite <- !app_assoc. }
  split; [done|].
  unfold make_hs_nlp. rewrite Hb. cbn [mbind option_bind].
  eexists. split; reflexivity.
Qed.

(** The objective and the two constraint groups are returned as three
    functions of their own; without intervals the constructor fails at the
    division [horizon/nintervals]. *)
Lemma make_hs_nlp_results
    (horizon : F)
    (unravel : vec F -> option (matrix F * matrix F * vec F * vec F))
    (n : nat) :
  exists p,
    make_hs_nlp junk_state junk_control junk_mid_control
      horizon (S n) unravel = Some p
    /\ nlp_objective p = objective horizon (S n) unravel
    /\ nlp_equality_constraints p
       = equality_constraints horizon (S n) unravel
    /\ nlp_interpolation_constraints p
       = interpolation_constraints horizon (S n) unravel.
Proof.
  unfold make_hs_nlp.
  destruct (bounds (S n) junk_state junk_control junk_mid_control)
    as [b|] eqn:Hb; [by eexists|].
  unfold bounds in Hb.
  by rewrite state_bounds_pairs, mid_state_bounds_pairs in Hb.
Qed.

Lemma make_hs_nlp_without_intervals
    (horizon : F)
    (unravel : vec F -> option (matrix F * matrix F * vec F * vec F)) :
  make_hs_nlp junk_state junk_control junk_mid_control horizon 0 unravel
  = None.
Proof. reflexivity. Qed.

End bounds_claims.

(** ** System factory *)

Section systems_claims.
Import Systems.





End systems_claims.

(** ** The claims on the sample inputs *)

Section witnesses.
Import HermiteSimpson Examples.

Lemma equality_constraints_are_defects_witness :
  hs_unravel hs_flat
  = Some (hs_states, hs_mid_states, hs_controls, hs_mid_controls)
  /\ exists d,
       equality_constraints 2%R 1 hs_unravel hs_flat = Some d
       /\ length d = 4 * 1
       /\ forall k j, k < 1 -> j < 4 ->
            d !! (4 * k + j)
            = Some (defect_value (interval_duration 2%R 1)
                      hs_states hs_mid_states hs_controls hs_mid_controls
                      k j).
Proof.
  split; [reflexivity|].
  apply (equality_constraints_are_defects 2%R 1 hs_unravel hs_flat
           hs_states hs_mid_states hs_controls hs_mid_controls 1);
    try reflexivity; repeat constructor.
Defined.

Lemma interpolation_constraints_are_midpoint_residuals_witness :
  hs_unravel hs_flat
  = Some (hs_states, hs_mid_states, hs_controls, hs_mid_controls)
  /\ exists d,
       interpolation_constraints 2%R 1 hs_unravel hs_flat = Some d
       /\ length d = 4 * 1
       /\ forall k j, k < 1 -> j < 4 ->
            d !! (4 * k + j)
            = Some (interpolation_value (interval_duration 2%R 1)
                      hs_states hs_mid_states hs_controls k j).
Proof.
  split; [reflexivity|].
  apply (interpolation_constraints_are_midpoint_residuals 2%R 1
           hs_unravel hs_flat
           hs_states hs_mid_states hs_controls hs_mid_controls 1);
    try reflexivity; repeat constructor.
Defined.

Lemma objective_is_simpson_quadrature_witness :
  hs_unravel hs_flat
  = Some (hs_states, hs_mid_states, hs_controls, hs_mid_controls)
  /\ objective 2%R 1 hs_unravel hs_flat
     = Some (np_sum
               (simpson_cost (interval_duration 2%R 1)
                  hs_states hs_mid_states hs_controls hs_mid_controls
                <$> seq 0 1)).
Proof.
  split; [reflexivity|].
  apply (objective_is_simpson_quadrature 2%R 1 hs_unravel hs_flat
           hs_states hs_mid_states hs_controls hs_mid_controls 1);
    reflexivity.
Defined.

Lemma unflatten_flatten_roundtrip_witness :
  Forall Codec.well_typed ms_variables
  /\ exists result,
       (Codec.ravel_pytree ms_variables).2
         (Codec.ravel_pytree ms_variables).1 = Some result
       /\ result = ms_variables
       /\ Codec.shape_of <$> result = Codec.shape_of <$> ms_variables
       /\ length (Codec.ravel_pytree ms_variables).1
          = Codec.total_size (Codec.shape_of <$> ms_variables).
Proof.
  assert (Hw : Forall Codec.well_typed ms_variables)
    by (repeat constructor).
  split; [exact Hw|].
  exact (unflatten_flatten_roundtrip ms_variables Hw).
Defined.

Lemma equality_constraints_are_continuity_defects_witness :
  ms_unravel ms_flat = Some (ms_starting_xs, ms_us)
  /\ exists d,
       MultipleShooting.equality_constraints ms_unravel ms_flat = Some d
       /\ length d = 2 * 2
       /\ forall k j, k < 2 -> j < 2 ->
            d !! (2 * k + j)
            = Some (fsub
                      (entry (VanDerPol.step (row ms_starting_xs k)
                                (entry ms_us k)) j)
                      (entry (if decide (S k < 2)
                              then row ms_starting_xs (S k)
                              else VanDerPol.xf) j)).
Proof.
  split; [reflexivity|].
  apply (equality_constraints_are_continuity_defects ms_unravel ms_flat
           ms_starting_xs ms_us 2);
    try reflexivity; repeat constructor.
Defined.

Lemma objective_ignores_starting_states_witness :
  ms_unravel ms_flat = Some (ms_starting_xs, ms_us)
  /\ ms_unravel ms_other_flat = Some (ms_other_xs, ms_us)
  /\ exists value,
       MultipleShooting.objective ms_unravel ms_flat = Some value
       /\ MultipleShooting.objective ms_unravel ms_other_flat = Some value
       /\ SingleShooting.objective ms_us = Some value.
Proof.
  split; [reflexivity|]. split; [reflexivity|].
  apply (objective_ignores_starting_states ms_unravel ms_flat
           ms_other_flat ms_starting_xs ms_other_xs ms_us);
    reflexivity.
Defined.

End witnesses.

(** * Further properties of the transcriptions *)

(** ** State interpolant *)

Section state_interpolation_facts.
Import HermiteSimpson.
Local Open Scope R_scope.

Lemma of_int_real (z : Z) : of_int (F := R) z = IZR z.
Proof. unfold of_int. cbn [lit R_scalar]. unfold Q2R. simpl. field. Qed.

Lemma real_floor_unique (x : R) (z : Z) :
  IZR z <= x -> x < IZR z + 1 -> Int_part x = z.
Proof. intros Hlo Hhi. symmetry. apply Int_part_spec. lra. Qed.

Lemma real_ceil_unique (x : R) (z : Z) :
  IZR z - 1 < x -> x <= IZR z -> (- Int_part (- x))%Z = z.
Proof.
  intros Hlo Hhi. rewrite (real_floor_unique (- x) (- z)); [lia|..];
    rewrite opp_IZR; lra.
Qed.

Lemma real_node_quotient (dt : R) (k : nat) :
  dt <> 0 ->
  Int_part (IZR (Z.of_nat k) * dt / dt) = Z.of_nat k
  /\ (- Int_part (- (IZR (Z.of_nat k) * dt / dt)))%Z = Z.of_nat k.
Proof.
  intros Hdt.
  replace (IZR (Z.of_nat k) * dt / dt) with (IZR (Z.of_nat k))
    by (field; done).
  split; [apply real_floor_unique|apply real_ceil_unique]; lra.
Qed.

Lemma real_midpoint_quotient (dt : R) (k : nat) :
  dt <> 0 ->
  Int_part ((IZR (Z.of_nat k) * dt + dt / 2) / dt) = Z.of_nat k
  /\ (- Int_part (- ((IZR (Z.of_nat k) * dt + dt / 2) / dt)))%Z
     = (Z.of_nat k + 1)%Z.
Proof.
  intros Hdt.
  replace ((IZR (Z.of_nat k) * dt + dt / 2) / dt)
    with (IZR (Z.of_nat k) + / 2) by (field; done).
  split; [apply real_floor_unique|apply real_ceil_unique];
    rewrite ?plus_IZR; lra.
Qed.

(** The cubic of one state dimension at the middle of the interval. *)
Lemma cubic_at_midpoint (s s' m fk fm fk' dt tau : R) :
  dt <> 0 -> tau = dt / 2 ->
  fsub (fsub s' s)
    (fmul (fdiv dt (lit 6%Q)) (fadd (fadd fk (fmul (lit 4%Q) fm)) fk')) = 0 ->
  fsub (fsub m (fmul (fdiv (lit 1%Q) (lit 2%Q)) (fadd s s')))
    (fmul (fdiv dt (lit 8%Q)) (fsub fk fk')) = 0 ->
  fadd
    (fadd
       (fadd s (fmul fk tau))
       (fdiv (fmul (fmul (fdiv (lit 1%Q) (lit 2%Q))
                      (fsub (fadd (fmul (of_int (-3)) fk)
                                  (fmul (lit 4%Q) fm)) fk'))
                (fsq tau)) dt))
    (fdiv (fmul (fmul (fdiv (lit 1%Q) (lit 3%Q))
                   (fadd (fsub (fmul (lit 2%Q) fk) (fmul (lit 4%Q) fm))
                         (fmul (lit 2%Q) fk')))
             (fmul tau (fsq tau))) (fsq dt))
  = m.
Proof.
  intros Hdt -> Hdefect Hmid.
  rewrite of_int_real.
  cbn [lit fadd fsub fmul fdiv fsq R_scalar] in *.
  unfold Q2R in *. simpl in *.
  assert (Hs' : s' = s + dt / 6 * (fk + 4 * fm + fk')) by lra.
  assert (Hm : m = / 2 * (s + s') + dt / 8 * (fk - fk')) by lra.
  rewrite Hm, Hs'. field. done.
Qed.

End state_interpolation_facts.

Section state_interpolation_claims.
Import HermiteSimpson.
Local Open Scope R_scope.
Variables states mid_states : matrix R.
Variables controls mid_controls : vec R.

Local Ltac four x Hx :=
  destruct x as [|? [|? [|? [|? [|? ?]]]]]; try discriminate Hx.

(** X1. In real arithmetic and for a step [dt <> 0], the state interpolant
    at the node time [k * dt] returns the node state [states[k]]. *)
Theorem state_interpolation_at_nodes (dt : R) (k : nat) (s : vec R) :
  dt <> 0 -> states !! k = Some s ->
  hs_state_interpolation states mid_states controls mid_controls dt
    (node_time dt k) = Some s.
Proof.
  intros Hdt Hs. unfold hs_state_interpolation, node_time.
  rewrite of_int_real.
  cbn [int_floor int_ceil R_rounding fdiv fmul R_scalar].
  destruct (real_node_quotient dt k Hdt) as [-> ->].
  cbn [mbind option_bind]. rewrite decide_True by done.
  rewrite getitem_nat; [done|]. by apply lookup_lt_Some in Hs.
Qed.

(** X2. In real arithmetic and for [dt <> 0]: when the defect and the
    interpolation constraint of interval [k] vanish in every state
    dimension, the state interpolant at the midpoint time
    [k * dt + dt/2] passes through the midpoint state [mid_states[k]]. *)
Theorem state_interpolation_at_midpoints
    (dt : R) (k : nat) (s m s' : vec R) (c mc c' : R) :
  dt <> 0 ->
  states !! k = Some s -> mid_states !! k = Some m ->
  states !! S k = Some s' -> controls !! k = Some c ->
  mid_controls !! k = Some mc -> controls !! S k = Some c' ->
  length s = 4%nat -> length m = 4%nat -> length s' = 4%nat ->
  (forall j, (j < 4)%nat ->
     defect_value dt states mid_states controls mid_controls k j = 0) ->
  (forall j, (j < 4)%nat ->
     interpolation_value dt states mid_states controls k j = 0) ->
  exists v,
    hs_state_interpolation states mid_states controls mid_controls dt
      (midpoint_time dt k) = Some v
    /\ length v = 4%nat
    /\ forall j, (j < 4)%nat -> entry v j = entry m j.
Proof.
  intros Hdt Hs Hm Hs' Hc Hmc Hc' L1 L2 L3 Hdefect Hmid.
  unfold hs_state_interpolation, midpoint_time, node_time.
  rewrite (of_int_real (Z.of_nat k)).
  cbn [int_floor int_ceil R_rounding].
  change (fdiv (fadd (fmul (IZR (Z.of_nat k)) dt) (fdiv dt (lit 2%Q))) dt)
    with ((IZR (Z.of_nat k) * dt + dt / Q2R 2) / dt).
  replace (Q2R 2) with 2 by (unfold Q2R; simpl; field).
  destruct (real_midpoint_quotient dt k Hdt) as [-> ->].
  cbn [mbind option_bind]. rewrite decide_False by lia.
  replace (Z.of_nat k + 1)%Z with (Z.of_nat (S k)) by lia.
  rewrite !getitem_nat by (eapply lookup_lt_Some; eassumption).
  rewrite Hs, Hm, Hs', Hc, Hmc, Hc'. cbn [mbind option_bind].
  assert (Htau : fsub (fadd (fmul (IZR (Z.of_nat k)) dt)
                            (fdiv dt (lit 2%Q)))
                   (fmul dt (of_int (Z.of_nat k))) = dt / 2).
  { rewrite of_int_real. cbn [fadd fsub fmul fdiv lit R_scalar].
    unfold Q2R. simpl. lra. }
  pose proof (fun j Hj => Hdefect j Hj) as Hd.
  pose proof (fun j Hj => Hmid j Hj) as Hi.
  unfold defect_value, interpolation_value, dynamics_at, row, entry in Hd, Hi.
  rewrite Hs, Hm, Hs', Hc, Hmc, Hc' in Hd.
  rewrite Hs, Hm, Hs', Hc, Hc' in Hi.
  four s L1. four m L2. four s' L3.
  eexists. split; [reflexivity|]. split; [reflexivity|].
  intros j Hj.
  destruct j as [|[|[|[|j]]]]; [| | | |lia];
    (eapply cubic_at_midpoint;
     [exact Hdt|exact Htau|exact (Hd _ Hj)|exact (Hi _ Hj)]).
Qed.

End state_interpolation_claims.

(** ** More on the collocation functions *)

Section vmap_sizes.

Lemma vmap6_Some_lengths {A1 A2 A3 A4 A5 A6 C : Type}
    (g : A1 -> A2 -> A3 -> A4 -> A5 -> A6 -> option C)
    a1 a2 a3 a4 a5 a6 zs :
  vmap6 g a1 a2 a3 a4 a5 a6 = Some zs ->
  length a1 = length zs /\ length a2 = length zs /\ length a3 = length zs
  /\ length a4 = length zs /\ length a5 = length zs
  /\ length a6 = length zs.
Proof.
  revert a2 a3 a4 a5 a6 zs.
  induction a1 as [|x1 a1 IH]; intros [|x2 a2] [|x3 a3] [|x4 a4] [|x5 a5]
    [|x6 a6] zs Hv; simpl in Hv; try discriminate.
  - by injection Hv as <-.
  - destruct (g x1 x2 x3 x4 x5 x6) as [z|]; [|discriminate]. simpl in Hv.
    destruct (vmap6 g a1 a2 a3 a4 a5 a6) as [zs'|] eqn:Hrec; [|discriminate].
    injection Hv as <-. simpl.
    destruct (IH _ _ _ _ _ _ Hrec) as (-> & -> & -> & -> & -> & ->). done.
Qed.

(** The batched map raises when the sizes of its arguments disagree. *)
Lemma vmap6_size_mismatch {A1 A2 A3 A4 A5 A6 C : Type}
    (g : A1 -> A2 -> A3 -> A4 -> A5 -> A6 -> option C)
    a1 a2 a3 a4 a5 a6 :
  ~ (length a1 = length a2 /\ length a3 = length a2
     /\ length a4 = length a2 /\ length a5 = length a2
     /\ length a6 = length a2) ->
  vmap6 g a1 a2 a3 a4 a5 a6 = None.
Proof.
  intros Hne. destruct (vmap6 g a1 a2 a3 a4 a5 a6) as [zs|] eqn:Hv; [|done].
  destruct (vmap6_Some_lengths _ _ _ _ _ _ _ _ Hv)
    as (? & ? & ? & ? & ? & ?).
  destruct Hne. repeat split; congruence.
Qed.

End vmap_sizes.

Section hs_value_facts.
Import HermiteSimpson.
Context {F : Type} `{Scalar F, Trig F}.
Variable horizon : F.
Variable nintervals : nat.
Variable unravel : vec F -> option (matrix F * matrix F * vec F * vec F).

Local Abbreviation dt := (interval_duration horizon nintervals).

(** The cost of interval [k], which reads the controls only. *)
Lemma objective_value
    (flat : vec F) (states mid_states : matrix F)
    (controls mid_controls : vec F) (N : nat) :
  unravel flat = Some (states, mid_states, controls, mid_controls) ->
  length states = S N -> length mid_states = N ->
  length controls = S N -> length mid_controls = N ->
  objective horizon nintervals unravel flat
  = Some (np_sum
            ((fun k =>
                fmul (fdiv dt (lit 6%Q))
                  (fadd (fadd (fsq (entry controls k))
                              (fmul (lit 4%Q) (fsq (entry mid_controls k))))
                        (fsq (entry controls (S k)))))
               <$> seq 0 N)).
Proof.
  intros Hun Ls Lm Lc Lmc.
  unfold objective, batched_cost. rewrite Hun. cbn [mbind option_bind].
  erewrite (vmap6_seq _ _ N);
    rewrite ?but_last_length, ?but_first_length; try lia; [done|].
  intros k s m s' c mc c' Hs Hm Hs' Hc Hmc Hc'.
  destruct (interval_args_lookup states controls N k s s' c c')
    as (Ks & Ks' & Kc & Kc'); try done.
  unfold hs_cost, cost, entry. by rewrite Kc, Hmc, Kc'.
Qed.

Lemma interpolation_constraints_value
    (flat : vec F) (states mid_states : matrix F)
    (controls mid_controls : vec F) (N : nat) :
  unravel flat = Some (states, mid_states, controls, mid_controls) ->
  length states = S N -> length mid_states = N ->
  length controls = S N -> length mid_controls = N ->
  Forall (fun s => length s = 4) states ->
  Forall (fun s => length s = 4) mid_states ->
  interpolation_constraints horizon nintervals unravel flat
  = Some (concat ((fun k => interpolation_value dt states mid_states
                              controls k <$> seq 0 4) <$> seq 0 N)).
Proof.
  intros Hun Ls Lm Lc Lmc Ws Wm.
  unfold interpolation_constraints, batched_interpolations.
  rewrite Hun. cbn [mbind option_bind].
  rewrite (vmap6_seq _
    (fun k => interpolation_value dt states mid_states controls k
                <$> seq 0 4) N);
    rewrite ?but_last_length, ?but_first_length; try lia; [done|].
  intros k s m s' c mc c' Hs Hm Hs' Hc Hmc Hc'.
  destruct (interval_args_lookup states controls N k s s' c c')
    as (Ks & Ks' & Kc & Kc'); try done.
  apply hs_interpolation_value; try done.
  - by apply (Forall_lookup_1 _ _ _ _ Ws Ks).
  - by apply (Forall_lookup_1 _ _ _ _ Wm Hm).
  - by apply (Forall_lookup_1 _ _ _ _ Ws Ks').
Qed.

End hs_value_facts.

Section hs_more_claims.
Import HermiteSimpson.
Context {F : Type} `{Scalar F, Trig F}.
Variable horizon : F.
Variable nintervals : nat.
Variable unravel : vec F -> option (matrix F * matrix F * vec F * vec F).

(** X3. The collocation objective reads the controls only: two decision
    vectors with the same node and midpoint controls get the same
    objective value, whatever their node and midpoint states. *)
Theorem collocation_objective_reads_controls_only
    (v1 v2 : vec F) (states1 mids1 states2 mids2 : matrix F)
    (controls mid_controls : vec F) (N : nat) :
  unravel v1 = Some (states1, mids1, controls, mid_controls) ->
  unravel v2 = Some (states2, mids2, controls, mid_controls) ->
  length states1 = S N -> length mids1 = N ->
  length states2 = S N -> length mids2 = N ->
  length controls = S N -> length mid_controls = N ->
  exists value,
    objective horizon nintervals unravel v1 = Some value
    /\ objective horizon nintervals unravel v2 = Some value.
Proof.
  intros Hv1 Hv2 L1 L2 L3 L4 L5 L6.
  rewrite (objective_value _ _ _ v1 states1 mids1 controls mid_controls N)
    by done.
  rewrite (objective_value _ _ _ v2 states2 mids2 controls mid_controls N)
    by done.
  by eexists.
Qed.

(** X4. The interpolation constraints do not read the midpoint controls:
    two decision vectors that differ in the midpoint controls only get
    the same interpolation-constraint values. *)
Theorem interpolation_constraints_ignore_mid_controls
    (v1 v2 : vec F) (states mid_states : matrix F)
    (controls mid_controls1 mid_controls2 : vec F) (N : nat) :
  unravel v1 = Some (states, mid_states, controls, mid_controls1) ->
  unravel v2 = Some (states, mid_states, controls, mid_controls2) ->
  length states = S N -> length mid_states = N ->
  length controls = S N ->
  length mid_controls1 = N -> length mid_controls2 = N ->
  Forall (fun s => length s = 4) states ->
  Forall (fun s => length s = 4) mid_states ->
  exists d,
    interpolation_constraints horizon nintervals unravel v1 = Some d
    /\ interpolation_constraints horizon nintervals unravel v2 = Some d.
Proof.
  intros Hv1 Hv2 L1 L2 L3 L4 L5 Ws Wm.
  rewrite (interpolation_constraints_value _ _ _ v1 states mid_states
             controls mid_controls1 N) by done.
  rewrite (interpolation_constraints_value _ _ _ v2 states mid_states
             controls mid_controls2 N) by done.
  by eexists.
Qed.

(** X5. A decision vector whose numbers of nodes and midpoints do not fit
    together (one midpoint state and control between two consecutive node
    states and controls) is rejected by the objective and by both
    constraint functions. *)
Theorem inconsistent_sizes_are_rejected
    (flat : vec F) (states mid_states : matrix F)
    (controls mid_controls : vec F) :
  unravel flat = Some (states, mid_states, controls, mid_controls) ->
  ~ (length states - 1 = length mid_states
     /\ length controls - 1 = length mid_states
     /\ length mid_controls = length mid_states) ->
  objective horizon nintervals unravel flat = None
  /\ equality_constraints horizon nintervals unravel flat = None
  /\ interpolation_constraints horizon nintervals unravel flat = None.
Proof.
  intros Hun Hsizes.
  unfold objective, equality_constraints, interpolation_constraints,
    batched_cost, batched_defects, batched_interpolations.
  rewrite Hun. cbn [mbind option_bind].
  rewrite !vmap6_size_mismatch; [done|..];
    rewrite !but_last_length, !but_first_length;
    intros (? & ? & ? & ? & ?); apply Hsizes; repeat split; lia.
Qed.

End hs_more_claims.

Section rational_facts.
Local Open Scope Q_scope.

Lemma np_sum_from_nonneg (l : list Q) (acc : Q) :
  0 <= acc -> Forall (fun x => 0 <= x) l -> 0 <= foldl Qplus acc l.
Proof.
  intros Hacc Hl. revert acc Hacc.
  induction Hl as [|x l Hx _ IH]; intros acc Hacc; [done|].
  simpl. apply IH.
  rewrite <- (Qplus_0_r 0). by apply Qplus_le_compat.
Qed.

Lemma np_sum_from_zeros (l : list Q) (acc : Q) :
  Forall (fun x => x == 0) l -> foldl Qplus acc l == acc.
Proof.
  intros Hl. revert acc.
  induction Hl as [|x l Hx _ IH]; intros acc; [reflexivity|].
  simpl. rewrite IH, Hx. ring.
Qed.

Lemma entry_zero (v : list Q) (k : nat) :
  Forall (fun x => x == 0) v -> entry v k == 0.
Proof.
  intros Hv. unfold entry.
  destruct (v !! k) as [x|] eqn:Hx; [|reflexivity].
  exact (Forall_lookup_1 _ _ _ _ Hv Hx).
Qed.

Lemma square_nonneg (x : Q) : 0 <= x * x.
Proof. destruct x as [n d]. unfold Qle. simpl. nia. Qed.

End rational_facts.

Section rational_claims.
Import HermiteSimpson.
Local Open Scope Q_scope.
Variable unravel : vec Q -> option (matrix Q * matrix Q * vec Q * vec Q).

(** X6. In exact arithmetic, for a horizon [>= 0] and at least one
    interval, the collocation objective is never negative, and it is zero
    when all node and midpoint controls are zero (as in the script's
    initial guess). *)
Theorem collocation_objective_is_nonnegative
    (horizon : Q) (nintervals : nat)
    (flat : vec Q) (states mid_states : matrix Q)
    (controls mid_controls : vec Q) (N : nat) :
  0 <= horizon -> (0 < nintervals)%nat ->
  unravel flat = Some (states, mid_states, controls, mid_controls) ->
  length states = S N -> length mid_states = N ->
  length controls = S N -> length mid_controls = N ->
  exists value,
    objective horizon nintervals unravel flat = Some value
    /\ 0 <= value
    /\ (Forall (fun c => c == 0) controls ->
        Forall (fun c => c == 0) mid_controls -> value == 0).
Proof.
  intros Hh Hn Hun Ls Lm Lc Lmc.
  rewrite (objective_value _ _ _ flat states mid_states controls
             mid_controls N) by done.
  eexists. split; [reflexivity|].
  assert (Hdt : 0 <= interval_duration horizon nintervals / 6).
  { unfold interval_duration, of_int.
    cbn [fdiv lit Q_scalar].
    apply Qle_shift_div_l; [reflexivity|]. rewrite Qmult_0_l.
    apply Qle_shift_div_l; [|by rewrite Qmult_0_l].
    rewrite <- (Zlt_Qlt 0). lia. }
  cbn [fdiv fmul fadd fsq lit Q_scalar] in *.
  split.
  - unfold np_sum. apply np_sum_from_nonneg; [apply Qle_refl|].
    apply Forall_fmap, Forall_true. intros k. cbn [compose].
    apply Qmult_le_0_compat; [done|].
    pose proof (square_nonneg (entry controls k)).
    pose proof (square_nonneg (entry mid_controls k)).
    pose proof (square_nonneg (entry controls (S k))).
    Lqa.lra.
  - intros Hc Hmc. unfold np_sum.
    rewrite np_sum_from_zeros; [reflexivity|].
    apply Forall_fmap, Forall_true. intros k. cbn [compose].
    rewrite !(entry_zero controls), !(entry_zero mid_controls) by done.
    ring.
Qed.

(** X7. In exact arithmetic, for a step [dt > 0] and an offset
    [0 < tau < dt] inside interval [k]: when the midpoint control is the
    mean of the two node controls, the control interpolant is the straight
    line between them, [u(k*dt + tau) == c + (c' - c) * tau / dt]. *)
Theorem control_interpolation_reproduces_lines
    (controls mid_controls : vec Q) (dt tau : Q) (k : nat) (c m c' : Q) :
  0 < tau -> tau < dt ->
  controls !! k = Some c -> mid_controls !! k = Some m ->
  controls !! S k = Some c' ->
  m == (c + c') / 2 ->
  exists v,
    hs_control_interpolation controls mid_controls dt
      (fadd (node_time dt k) tau) = Some v
    /\ v == c + (c' - c) * (tau / dt).
Proof.
  intros Htau Hlt Hc Hm Hc' Hmean.
  assert (Hdt : 0 < dt) by (eapply Qlt_trans; eassumption).
  assert (Hdt' : ~ dt == 0) by (intros E; rewrite E in Hdt; by apply Qlt_irrefl in Hdt).
  unfold hs_control_interpolation, node_time.
  cbn [int_floor int_ceil Q_rounding fdiv fmul fadd fsub fsq Q_scalar
         of_int lit].
  assert (Hq : (inject_Z (Z.of_nat k) * dt + tau) / dt
               == inject_Z (Z.of_nat k) + tau / dt) by (field; done).
  assert (Hlo : 0 < tau / dt).
  { apply Qlt_shift_div_l; [done|]. by rewrite Qmult_0_l. }
  assert (Hhi : tau / dt < 1).
  { apply Qlt_shift_div_r; [done|]. by rewrite Qmult_1_l. }
  rewrite (Qfloor_unique _ (Z.of_nat k)); cycle 1.
  { rewrite Hq. Lqa.lra. }
  { rewrite Hq, inject_Z_plus. change (inject_Z 1) with 1. Lqa.lra. }
  rewrite (Qceiling_unique _ (Z.of_nat k + 1)); cycle 1.
  { rewrite Hq. replace (Z.of_nat k + 1 - 1)%Z with (Z.of_nat k) by lia.
    Lqa.lra. }
  { rewrite Hq, inject_Z_plus. change (inject_Z 1) with 1. Lqa.lra. }
  cbn [mbind option_bind]. rewrite decide_False by lia.
  replace (Z.of_nat k + 1)%Z with (Z.of_nat (S k)) by lia.
  rewrite !getitem_nat by (eapply lookup_lt_Some; eassumption).
  rewrite Hc, Hm, Hc'. cbn [mbind option_bind].
  eexists. split; [reflexivity|]. rewrite Hmean. field. done.
Qed.

End rational_claims.

(** ** More on the shooting scripts *)

Section shooting_value_facts.
Import VanDerPol.
Context {F : Type} `{Scalar F}.
Variable unravel : vec F -> option (matrix F * vec F).

(** The continuity defects, segment by segment. *)
Lemma continuity_defects_value
    (flat : vec F) (starting_xs : matrix F) (us : vec F) (n : nat) :
  unravel flat = Some (starting_xs, us) ->
  length starting_xs = S n -> length us = S n ->
  Forall (fun x => length x = 2) starting_xs ->
  MultipleShooting.equality_constraints unravel flat
  = Some (concat
            ((fun k =>
                (fun j => fsub
                   (entry (step (row starting_xs k) (entry us k)) j)
                   (entry (if decide (S k < S n)
                           then row starting_xs (S k) else xf) j))
                <$> seq 0 2) <$> seq 0 (S n))).
Proof.
  intros Hun Lx Lu Wx.
  unfold MultipleShooting.equality_constraints,
    MultipleShooting.parallel_rk4_step.
  rewrite Hun. cbn [mbind option_bind].
  rewrite (vmap2_seq _ (fun k => step (row starting_xs k) (entry us k))
             (S n))
    by (try done; intros k x u Hx Hu; unfold row, entry; rewrite Hx, Hu;
        apply single_rk4_step_classical;
        by apply (Forall_lookup_1 _ _ _ _ Wx Hx)).
  cbn [mbind option_bind].
  unfold msub. rewrite broadcast_vmap2
    by (rewrite length_fmap, length_seq, length_app, but_first_length;
        simpl; lia).
  erewrite (vmap2_seq _ _ (S n)); [done| | |].
  - by rewrite length_fmap, length_seq.
  - rewrite length_app, but_first_length. simpl. lia.
  - intros k p e Hp He.
    assert (Hk : k < S n).
    { apply lookup_lt_Some in Hp.
      by rewrite length_fmap, length_seq in Hp. }
    rewrite seq_fmap_lookup in Hp by done. injection Hp as <-.
    assert (Hrow : forall i, i < S n -> length (row starting_xs i) = 2).
    { intros i Hi. unfold row.
      destruct (lookup_lt_is_Some_2 starting_xs i) as [x Hx]; [lia|].
      rewrite Hx. by apply (Forall_lookup_1 _ _ _ _ Wx Hx). }
    assert (He' : e = if decide (S k < S n)
                      then row starting_xs (S k) else xf).
    { case_decide as Hlast.
      - rewrite lookup_app_l in He by (rewrite but_first_length; lia).
        rewrite but_first_lookup in He. unfold row. by rewrite He.
      - rewrite lookup_app_r in He by (rewrite but_first_length; lia).
        rewrite but_first_length in He.
        replace (k - (length starting_xs - 1)) with 0 in He by lia.
        by injection He as <-. }
    rewrite <- He'. apply vsub_rows.
    + by apply step_length, Hrow.
    + rewrite He'. case_decide; [apply Hrow; lia|done].
Qed.

End shooting_value_facts.

Section shooting_more_claims.
Import VanDerPol.
Context {F : Type} `{Scalar F}.

(** X8. For every control sequence, the single-shooting objective returns
    a value: the sum over the steps [k] of the cost of the state reached
    after step [k] together with the control [us[k]] applied during it,
    plus the cost [x0 . x0] of the initial state. *)
Theorem single_shooting_objective_value (us : vec F) :
  SingleShooting.objective us
  = Some (fadd
            (np_sum
               ((fun k =>
                   let x := state_after x0 us (S k) in
                   fadd (np_sum (zip_with fmul x x)) (fsq (entry us k)))
                  <$> seq 0 (length us)))
            (np_sum (zip_with fmul x0 x0))).
Proof.
  unfold SingleShooting.objective, SingleShooting.integrate_fwd,
    integrate_fwd.
  rewrite scan_fn_state_after by done. cbn [mbind option_bind fst snd].
  rewrite vector_c_trajectory. reflexivity.
Qed.

(** X9. For every control sequence, the single-shooting equality
    constraint returns two values, the components of [x_N - xf], where
    [x_N] is the state after all [N] steps from [x0]; without controls it
    is [x0 - xf]. *)
Theorem single_shooting_terminal_defect (us : vec F) :
  SingleShooting.equality_constraints us
  = Some ((fun j => fsub (entry (state_after x0 us (length us)) j)
                         (entry xf j)) <$> seq 0 2).
Proof.
  unfold SingleShooting.equality_constraints, SingleShooting.integrate_fwd,
    integrate_fwd.
  rewrite scan_fn_state_after by done. cbn [mbind option_bind fst].
  apply vsub_rows; [|done]. by apply state_after_length.
Qed.

End shooting_more_claims.

Section shooting_rational_claims.
Import VanDerPol.
Local Open Scope Q_scope.
Variable unravel : vec Q -> option (matrix Q * vec Q).

(** X10. In exact arithmetic: when the segment start states are the
    states [x_0, ..., x_{N-1}] of the trajectory integrated from [x0]
    under the controls, all continuity defects of the multiple-shooting
    constraints but those of the last segment are zero, and those of the
    last segment are the single-shooting terminal defect [x_N - xf]. *)
Theorem multiple_shooting_on_the_integrated_trajectory
    (flat : vec Q) (us : vec Q) (n : nat) :
  length us = S n ->
  unravel flat
  = Some ((fun k => state_after x0 us k) <$> seq 0 (S n), us) ->
  exists d terminal,
    MultipleShooting.equality_constraints unravel flat = Some d
    /\ SingleShooting.equality_constraints us = Some terminal
    /\ (forall i, (i < 2 * n)%nat -> exists v, d !! i = Some v /\ v == 0)
    /\ drop (2 * n) d = terminal.
Proof.
  intros Lu Hun.
  set (xs := (fun k => state_after x0 us k) <$> seq 0 (S n)) in *.
  assert (Hrow : forall k, (k < S n)%nat -> row xs k = state_after x0 us k).
  { intros k Hk. unfold row, xs. by rewrite seq_fmap_lookup. }
  rewrite (continuity_defects_value unravel flat xs us n); try done; cycle 1.
  { unfold xs. by rewrite length_fmap, length_seq. }
  { unfold xs. apply Forall_fmap, Forall_true. intros k.
    by apply state_after_length. }
  unfold SingleShooting.equality_constraints, SingleShooting.integrate_fwd,
    integrate_fwd.
  rewrite scan_fn_state_after by done. cbn [mbind option_bind fst].
  rewrite (vsub_rows (state_after x0 us (length us)) xf)
    by (try done; by apply state_after_length).
  eexists. eexists. split; [reflexivity|]. split; [reflexivity|]. split.
  - intros i Hi.
    rewrite (Nat.div_mod_eq i 2), (Nat.mul_comm 2 (i `div` 2)).
    assert (Hk : (i `div` 2 < n)%nat) by (apply Nat.Div0.div_lt_upper_bound; lia).
    assert (Hj : (i `mod` 2 < 2)%nat) by (apply Nat.mod_upper_bound; lia).
    rewrite (concat_seq_lookup _ 2) by (try lia; intros; reflexivity).
    rewrite seq_fmap_lookup by done.
    eexists. split; [reflexivity|].
    rewrite decide_True by lia.
    rewrite !Hrow by lia.
    change (step (state_after x0 us (i `div` 2)) (entry us (i `div` 2)))
      with (state_after x0 us (S (i `div` 2))).
    cbn [fsub Q_scalar]. ring.
  - rewrite (seq_S n 0), fmap_app, concat_app.
    rewrite drop_app_length'
      by (rewrite (concat_seq_length _ 2); [lia|intros; reflexivity]).
    cbn [fmap list_fmap concat]. rewrite app_nil_r.
    rewrite decide_False by lia. rewrite Hrow by lia.
    change (step (state_after x0 us (0 + n)) (entry us (0 + n)))
      with (state_after x0 us (S n)).
    by rewrite Lu.
Qed.

End shooting_rational_claims.

Section shooting_bounds_claims.
Context {F : Type} `{Scalar F, Extended F}.
Variables junk_control junk_state : nat -> nat -> F.

Lemma free_state_rows (n : nat) :
  Forall (fun r : vec F => length r = 2)
    (concat (replicate n [[fneg finf; finf]; [fneg finf; finf]])).
Proof.
  induction n as [|n IH]; [constructor|]. simpl. by repeat constructor.
Qed.

(** X11. The bounds table of the multiple-shooting script for [n + 1]
    control intervals, whatever the fresh arrays held: the first segment
    start state is pinned to [x0] (lower and upper bound [x0[j]]), the
    start states of the other [n] segments are unbounded, and each of the
    [n + 1] controls lies in [[-0.75, 1.0]]; there is no bound row for the
    final state. *)
Theorem shooting_bounds_pin_first_segment_only (n : nat) :
  MultipleShooting.all_bounds (S n) junk_control junk_state
  = Some ([[lit 0%Q; lit 0%Q]; [lit 1%Q; lit 1%Q]]
            ++ concat (replicate n [[fneg finf; finf]; [fneg finf; finf]])
            ++ replicate (S n) [lit (-0.75)%Q; lit 1.0%Q]).
Proof.
  unfold MultipleShooting.all_bounds, MultipleShooting.step_size,
    MultipleShooting.state_bounds, MultipleShooting.control_bounds.
  rewrite decide_False by done. cbn [mbind option_bind].
  rewrite set_all_replicate, onp_empty_length.
  assert (Hcols :
    HermiteSimpson.set_col 3 finf
      (HermiteSimpson.set_col 1 finf
         (HermiteSimpson.set_col 2 (fneg finf)
            (HermiteSimpson.set_col 0 (fneg finf)
               (HermiteSimpson.onp_empty junk_state (S n) 4))))
    = replicate (S n) [fneg finf; finf; fneg finf; finf]).
  { unfold HermiteSimpson.set_col, HermiteSimpson.onp_empty.
    rewrite <- !list_fmap_compose.
    rewrite (const_fmap _ _ [fneg finf; finf; fneg finf; finf]);
      [by rewrite length_seq|done]. }
  cbv zeta. rewrite Hcols. rewrite !replicate_S.
  change (getitem VanDerPol.x0 0) with (Some (lit 0%Q : F)).
  change (getitem VanDerPol.x0 1) with (Some (lit 1%Q : F)).
  cbn [mbind option_bind lookup list_lookup].
  unfold HermiteSimpson.set_item. rewrite !alter_first.
  cbn [mbind option_bind].
  unfold np_ravel. cbn [concat].
  change (concat (replicate n [fneg finf; finf; fneg finf; finf]))
    with (concat (replicate n
                    (concat [[fneg finf; finf]; [fneg finf; finf]]))).
  rewrite concat_concat_replicate.
  cbn [insert list_insert app].
  cbn [pairs fmap option_fmap option_map].
  rewrite pairs_concat by apply free_state_rows.
  reflexivity.
Qed.

End shooting_bounds_claims.

(** ** The packaged systems and the scripts *)

Section systems_dynamics_claims.
Import SystemsDynamics.

Local Open Scope R_scope.

(** X13. In real arithmetic and for the same masses, length and gravity,
    the cart-pole dynamics of [source/systems.py] and of the collocation
    script agree in the two velocities and in the cart acceleration; their
    angular accelerations differ by
    [l*m2*cos(q2)*q2'^2*(1 - sin(q2)) / (l*(m1 + m2*sin(q2)^2))]. *)
Theorem cartpole_system_and_script
    (self : CartPole (F := R)) (q1 q2 q1' q2' u : R) :
  exists a s,
    cartpole_dynamics self [q1; q2; q1'; q2'] u
    = Some [q1'; q2'; a; s]
    /\ exists t,
         Cartpole.make_cartpole (m1 self) (m2 self) (l self) (g self)
           [q1; q2; q1'; q2'] u
         = Some [q1'; q2'; a; t]
         /\ t - s
            = l self * m2 self * cos q2 * (q2' * q2') * (1 - sin q2)
              / (l self * (m1 self + m2 self * (sin q2 * sin q2))).
Proof.
  assert (Hsq : 1 - cos q2 * cos q2 = sin q2 * sin q2).
  { pose proof (sin2_cos2 q2) as Hid. unfold Rsqr in Hid. lra. }
  unfold cartpole_dynamics, Cartpole.make_cartpole.
  cbn [lit fadd fsub fmul fdiv fneg fsq fsin fcos R_scalar R_trig].
  replace (Q2R 1) with 1 by (unfold Q2R; simpl; field).
  rewrite Hsq.
  replace (l self * m1 self + l self * m2 self * (sin q2 * sin q2))
    with (l self * (m1 self + m2 self * (sin q2 * sin q2))) by ring.
  eexists. eexists. split; [reflexivity|].
  eexists. split.
  - do 4 f_equal. unfold Rdiv. ring.
  - unfold Rdiv. ring.
Qed.

End systems_dynamics_claims.

Section factory_claims.
Import Systems.

(** X16. On every instance of [HParams] as [source/config.py] declares
    it, whatever its fields hold, [get_system] stops at [hp.dynamics]
    with an [AttributeError] about the attribute [dynamics]: it returns
    no system, for a known system neither, and does not reach its own
    [KeyError]. *)
Theorem get_system_on_declared_hparams (hp : HParams) :
  exists msg,
    get_system (hparams_instance hp) = inl (AttributeError [PyStr msg])
    /\ occurs "dynamics" msg = true
    /\ (forall s, get_system (hparams_instance hp) <> inr s)
    /\ (forall args, get_system (hparams_instance hp) <> inl (KeyError args)).
Proof.
  eexists. split; [reflexivity|]. split; [reflexivity|]. split; done.
Qed.

End factory_claims.

(** ** The set-up of the collocation script *)

Section script_facts.
Import HermiteSimpson.
Context {F : Type} `{Scalar F, Trig F, Extended F}.

Local Ltac four x Hx :=
  destruct x as [|? [|? [|? [|? [|? ?]]]]]; try discriminate Hx.

Lemma vadd_rows4 (p e : vec F) :
  length p = 4 -> length e = 4 ->
  vadd p e = Some (zip_with fadd p e).
Proof. intros Hp He. four p Hp. four e He. reflexivity. Qed.

Lemma equality_constraints_value
    (horizon : F) (nintervals : nat)
    (unravel : vec F -> option (matrix F * matrix F * vec F * vec F))
    (flat : vec F) (states mid_states : matrix F)
    (controls mid_controls : vec F) (N : nat) :
  unravel flat = Some (states, mid_states, controls, mid_controls) ->
  length states = S N -> length mid_states = N ->
  length controls = S N -> length mid_controls = N ->
  Forall (fun s => length s = 4) states ->
  Forall (fun s => length s = 4) mid_states ->
  equality_constraints horizon nintervals unravel flat
  = Some (concat ((fun k => defect_value
                              (interval_duration horizon nintervals)
                              states mid_states controls mid_controls k
                            <$> seq 0 4) <$> seq 0 N)).
Proof.
  intros Hun Ls Lm Lc Lmc Ws Wm.
  unfold equality_constraints, batched_defects.
  rewrite Hun. cbn [mbind option_bind].
  rewrite (vmap6_seq _
    (fun k => defect_value (interval_duration horizon nintervals)
                states mid_states controls mid_controls k
                <$> seq 0 4) N);
    rewrite ?but_last_length, ?but_first_length; try lia; [done|].
  intros k s m s' c mc c' Hs Hm Hs' Hc Hmc Hc'.
  destruct (interval_args_lookup states controls N k s s' c c')
    as (Ks & Ks' & Kc & Kc'); try done.
  apply hs_defect_value; try done.
  - by apply (Forall_lookup_1 _ _ _ _ Ws Ks).
  - by apply (Forall_lookup_1 _ _ _ _ Wm Hm).
  - by apply (Forall_lookup_1 _ _ _ _ Ws Ks').
Qed.

Lemma bounds_value (junk_state junk_control junk_mid_control
                      : nat -> nat -> F) (n : nat) :
  bounds (S n) junk_state junk_control junk_mid_control
  = Some (bounds_table n).
Proof.
  unfold bounds.
  rewrite state_bounds_pairs, mid_state_bounds_pairs.
  cbn [mbind option_bind].
  unfold control_bounds, mid_control_bounds.
  rewrite !set_all_replicate, !onp_empty_length.
  unfold nvars, bounds_table.
  replace (S n + 1) with (S (S n)) by lia.
  replace (S (S n) - 1) with (S n) by lia.
  by rewrite <- !app_assoc.
Qed.

Lemma bounds_table_length (n : nat) :
  length (bounds_table (F := F) n) = 10 * n + 15.
Proof.
  unfold bounds_table, pinned.
  rewrite !length_app, !length_replicate.
  rewrite !(concat_uniform_length _ 4)
    by (apply Forall_replicate; reflexivity).
  rewrite !length_replicate. simpl. lia.
Qed.

Lemma initial_states_shape (intervals : nat) :
  length (CollocationScript.initial_states (F := F) intervals)
  = S intervals
  /\ Forall (fun r => length r = 4)
       (CollocationScript.initial_states (F := F) intervals).
Proof.
  unfold CollocationScript.initial_states,
    CollocationScript.linear_interpolation, CollocationScript.nvars.
  split.
  - rewrite !length_fmap, length_seq. lia.
  - apply Forall_fmap, Forall_true. intros w. reflexivity.
Qed.

(** The midpoint guess: one row of width four between two node rows. *)
Lemma mid_states_shape (intervals : nat) :
  exists ms,
    CollocationScript.mid_states (F := F) intervals = Some ms
    /\ length ms = intervals
    /\ Forall (fun r => length r = 4) ms.
Proof.
  destruct (initial_states_shape intervals) as [Hlen Hw].
  unfold CollocationScript.mid_states.
  set (xs := CollocationScript.initial_states intervals) in *.
  rewrite broadcast_vmap2
    by (by rewrite but_last_length, but_first_length).
  rewrite (vmap2_seq _ (fun k => zip_with fadd (row xs k) (row xs (S k)))
             intervals).
  - eexists. split; [reflexivity|]. split.
    + by rewrite !length_fmap, length_seq.
    + apply Forall_fmap, Forall_fmap, Forall_seq. intros k Hk.
      cbn [compose]. unfold vdiv, row. rewrite length_fmap.
      destruct (lookup_lt_is_Some_2 xs k) as [r Hr]; [lia|].
      destruct (lookup_lt_is_Some_2 xs (S k)) as [r' Hr']; [lia|].
      rewrite Hr, Hr'. cbn [default].
      rewrite length_zip_with. unfold Datatypes.id.
      pose proof (Forall_lookup_1 _ _ _ _ Hw Hr) as Lr.
      pose proof (Forall_lookup_1 _ _ _ _ Hw Hr') as Lr'.
      cbv beta in Lr, Lr'. lia.
  - rewrite but_last_length. lia.
  - rewrite but_first_length. lia.
  - intros k p e Hp He.
    assert (Hk : k < intervals).
    { apply lookup_lt_Some in Hp. rewrite but_last_length in Hp. lia. }
    rewrite but_last_lookup in Hp by lia.
    rewrite but_first_lookup in He.
    unfold row. rewrite Hp, He. cbn [default].
    apply vadd_rows4.
    + by apply (Forall_lookup_1 _ _ _ _ Hw Hp).
    + by apply (Forall_lookup_1 _ _ _ _ Hw He).
Qed.

End script_facts.

Section script_claims.
Import HermiteSimpson.
Context {F : Type} `{Scalar F, Trig F, Extended F}.
Variables junk_state junk_control junk_mid_control : nat -> nat -> F.

(** X14. The collocation script fits together for every number [n + 1]
    of intervals: the initial guess flattens to a vector that [unravel]
    accepts, the objective is defined there, each of the two constraint
    groups has [4 * (n + 1)] values there, and the bounds table has one
    row per entry of the decision vector ([10 * n + 15]). *)
Theorem collocation_script_is_consistent (horizon : F) (n : nat) :
  exists p flat,
    make_hs_nlp junk_state junk_control junk_mid_control horizon (S n)
      (CollocationScript.unravel (S n)) = Some p
    /\ CollocationScript.flat_initial_variables (S n) = Some flat
    /\ is_Some (CollocationScript.unravel (S n) flat)
    /\ is_Some (nlp_objective p flat)
    /\ (exists d, nlp_equality_constraints p flat = Some d
                  /\ length d = 4 * S n)
    /\ (exists d, nlp_interpolation_constraints p flat = Some d
                  /\ length d = 4 * S n)
    /\ length (nlp_bounds p) = length flat
    /\ length flat = 10 * n + 15.
Proof.
  destruct (initial_states_shape (F := F) (S n)) as [Lx Wx].
  destruct (mid_states_shape (F := F) (S n)) as (ms & Hms & Lm & Wm).
  set (xs := CollocationScript.initial_states (S n)) in *.
  set (zs := CollocationScript.np_zeros (F := F)
               (CollocationScript.nvars (S n))).
  set (mzs := CollocationScript.np_zeros (F := F)
                (CollocationScript.nvars (S n) - 1)).
  set (tree := [Codec.Arr2 4 xs; Codec.Arr2 4 ms;
                Codec.Arr1 zs; Codec.Arr1 mzs]).
  assert (Htree : CollocationScript.initial_variables (S n) = Some tree).
  { unfold CollocationScript.initial_variables. by rewrite Hms. }
  assert (Hw : Forall Codec.well_typed tree).
  { unfold tree.
    apply Forall_cons_2; [exact Wx|].
    apply Forall_cons_2; [exact Wm|].
    apply Forall_cons_2; [exact I|].
    apply Forall_cons_2; [exact I|]. apply Forall_nil_2. }
  assert (Lz : length zs = S (S n)).
  { unfold zs, CollocationScript.np_zeros, CollocationScript.nvars.
    rewrite length_replicate. lia. }
  assert (Lmz : length mzs = S n).
  { unfold mzs, CollocationScript.np_zeros, CollocationScript.nvars.
    rewrite length_replicate. lia. }
  set (flat := (Codec.ravel_pytree tree).1).
  assert (Hun : CollocationScript.unravel (S n) flat
                = Some (xs, ms, zs, mzs)).
  { unfold CollocationScript.unravel. rewrite Htree.
    cbn [mbind option_bind]. unfold Codec.unpack4, flat, Codec.ravel_pytree.
    cbn [fst snd]. rewrite decide_True by by apply ravel_total_size.
    cbn [mbind option_bind].
    rewrite <- (app_nil_r (concat _)), unravel_list_ravel by done.
    reflexivity. }
  assert (Lflat : length flat = 10 * n + 15).
  { unfold flat, Codec.ravel_pytree. cbn [fst].
    rewrite ravel_total_size by done.
    unfold Codec.total_size, tree.
    cbn [fmap list_fmap Codec.shape_of Codec.size sum_list sum_list_with].
    rewrite Lx, Lm, Lz, Lmz. unfold Datatypes.id. lia. }
  unfold make_hs_nlp. rewrite bounds_value. cbn [mbind option_bind].
  eexists. exists flat. split; [reflexivity|].
  split; [unfold CollocationScript.flat_initial_variables;
          by rewrite Htree|].
  cbn [nlp_objective nlp_equality_constraints
         nlp_interpolation_constraints nlp_bounds].
  split; [by rewrite Hun|].
  split.
  { rewrite (objective_value _ _ _ flat xs ms zs mzs (S n)) by done.
    by eexists. }
  split.
  { rewrite (equality_constraints_value _ _ _ flat xs ms zs mzs (S n))
      by done.
    eexists. split; [reflexivity|].
    rewrite (concat_seq_length _ 4); [lia|]. intros; reflexivity. }
  split.
  { rewrite (interpolation_constraints_value _ _ _ flat xs ms zs mzs (S n))
      by done.
    eexists. split; [reflexivity|].
    rewrite (concat_seq_length _ 4); [lia|]. intros; reflexivity. }
  split; [|done].
  rewrite bounds_table_length. lia.
Qed.

End script_claims.

(** ** A step of length zero *)

Section zero_step_claims.
Import HermiteSimpson.

Lemma quotient_by_zero_is_not_finite (t : float) :
  float_floor (PrimFloat.div t PrimFloat.zero) = None
  /\ float_ceil (PrimFloat.div t PrimFloat.zero) = None.
Proof.
  unfold float_floor, float_ceil. rewrite div_spec.
  destruct (Prim2SF t) as [s|s| |s m e]; vm_compute; done.
Qed.

(** X15. On float64, with an interval duration of [0.0] the control
    interpolant fails for every query time and whatever the controls: the
    quotient [t/interval_duration] is infinite or not a number, and its
    conversion to an index raises. *)
Theorem control_interpolation_fails_for_zero_step
    (controls mid_controls : vec float) (t : float) :
  hs_control_interpolation controls mid_controls PrimFloat.zero t = None.
Proof.
  unfold hs_control_interpolation.
  cbn [int_floor float_rounding fdiv float_scalar].
  by destruct (quotient_by_zero_is_not_finite t) as [-> _].
Qed.

End zero_step_claims.

(** ** The further properties on the sample inputs *)

Section more_witnesses.
Import HermiteSimpson Examples.

Lemma state_interpolation_at_nodes_witness :
  (2 <> 0)%R
  /\ hs_state_interpolation hs_states hs_mid_states hs_controls
       hs_mid_controls 2%R (node_time 2%R 1)
     = Some [1; 2; 3; 4]%R.
Proof.
  assert (Hdt : (2 <> 0)%R) by lra.
  split; [exact Hdt|].
  exact (state_interpolation_at_nodes hs_states hs_mid_states hs_controls
           hs_mid_controls 2%R 1 [1; 2; 3; 4]%R Hdt eq_refl).
Defined.

Lemma push_constraints_vanish (j : nat) :
  j < 4 ->
  defect_value 2%R push_states push_mid_states push_controls
    push_mid_controls 0 j = 0%R
  /\ interpolation_value 2%R push_states push_mid_states push_controls 0 j
     = 0%R.
Proof.
  intros Hj.
  unfold defect_value, interpolation_value, dynamics_at, row, entry,
    push_states, push_mid_states, push_controls, push_mid_controls, f,
    Cartpole.make_cartpole.
  destruct j as [|[|[|[|j]]]]; [| | | |lia];
    cbn [lookup list_lookup default from_option Datatypes.id
           lit fadd fsub fmul fdiv fneg fsq fsin fcos R_scalar R_trig];
    rewrite ?sin_0, ?cos_0;
    unfold Q2R; simpl; split; field; lra.
Qed.

(** On this interval the accelerations at the first node are [2] and
    [-4]: the quadratic and the cubic term of the interpolant do not
    vanish. *)
Lemma push_dynamics :
  f (F := R) [0; 0; 1; 0]%R 4%R = Some [1; 0; 2; -4]%R
  /\ f (F := R) [1; 0; 1; 0]%R (-2)%R = Some [1; 0; -1; 2]%R.
Proof.
  unfold f, Cartpole.make_cartpole.
  cbn [lit fadd fsub fmul fdiv fneg fsq fsin fcos R_scalar R_trig].
  rewrite ?sin_0, ?cos_0. unfold Q2R. simpl.
  split; do 3 f_equal; repeat f_equal; field.
Qed.

Lemma state_interpolation_at_midpoints_witness :
  (2 <> 0)%R
  /\ exists v,
       hs_state_interpolation push_states push_mid_states push_controls
         push_mid_controls 2%R (midpoint_time 2%R 0) = Some v
       /\ length v = 4
       /\ forall j, j < 4 -> entry v j = entry [1; 0; 1; 0]%R j.
Proof.
  assert (Hdt : (2 <> 0)%R) by lra.
  split; [exact Hdt|].
  apply (state_interpolation_at_midpoints push_states push_mid_states
           push_controls push_mid_controls 2%R 0
           [0; 0; 1; 0]%R [1; 0; 1; 0]%R [2; 0; 1; 0]%R 4%R (-2)%R 4%R);
    try reflexivity; try exact Hdt;
    intros j Hj; by destruct (push_constraints_vanish j Hj).
Defined.

Lemma collocation_objective_reads_controls_only_witness :
  hs_unravel hs_flat
  = Some (hs_states, hs_mid_states, hs_controls, hs_mid_controls)
  /\ exists value,
       objective 2%R 1 hs_unravel hs_flat = Some value
       /\ objective 2%R 1 hs_unravel hs_other_flat = Some value.
Proof.
  split; [reflexivity|].
  apply (collocation_objective_reads_controls_only 2%R 1 hs_unravel
           hs_flat hs_other_flat hs_states hs_mid_states
           [[9; 8; 7; 6]; [5; 4; 3; 2]]%R [[2; 2; 2; 2]]%R
           hs_controls hs_mid_controls 1);
    reflexivity.
Defined.

Lemma interpolation_constraints_ignore_mid_controls_witness :
  hs_unravel hs_other_mid_flat
  = Some (hs_states, hs_mid_states, hs_controls, [8]%R)
  /\ exists d,
       interpolation_constraints 2%R 1 hs_unravel hs_flat = Some d
       /\ interpolation_constraints 2%R 1 hs_unravel hs_other_mid_flat
          = Some d.
Proof.
  split; [reflexivity|].
  apply (interpolation_constraints_ignore_mid_controls 2%R 1 hs_unravel
           hs_flat hs_other_mid_flat hs_states hs_mid_states
           hs_controls hs_mid_controls [8]%R 1);
    try reflexivity; repeat constructor.
Defined.

Lemma inconsistent_sizes_are_rejected_witness :
  misfit_unravel misfit_flat
  = Some (hs_states, [[1; 1; 1; 1]; [2; 2; 2; 2]]%R,
          hs_controls, hs_mid_controls)
  /\ objective 2%R 1 misfit_unravel misfit_flat = None
  /\ equality_constraints 2%R 1 misfit_unravel misfit_flat = None
  /\ interpolation_constraints 2%R 1 misfit_unravel misfit_flat = None.
Proof.
  split; [reflexivity|].
  apply (inconsistent_sizes_are_rejected 2%R 1 misfit_unravel misfit_flat
           hs_states [[1; 1; 1; 1]; [2; 2; 2; 2]]%R
           hs_controls hs_mid_controls);
    [reflexivity|].
  simpl. lia.
Defined.

Lemma collocation_objective_is_nonnegative_witness :
  (0 <= 2)%Q
  /\ exists value,
       objective 2%Q 1 q_unravel q_flat = Some value
       /\ (0 <= value)%Q
       /\ (Forall (fun c => c == 0)%Q q_controls ->
           Forall (fun c => c == 0)%Q q_mid_controls -> (value == 0)%Q).
Proof.
  split; [discriminate|].
  apply (collocation_objective_is_nonnegative q_unravel 2%Q 1 q_flat
           q_states q_mid_states q_controls q_mid_controls 1);
    try reflexivity; [discriminate|lia].
Defined.

Lemma control_interpolation_reproduces_lines_witness :
  (0 < 1 # 4)%Q /\ (1 # 4 < 1)%Q /\ (2 == (1 + 3) / 2)%Q
  /\ exists v,
       hs_control_interpolation [1; 3]%Q [2]%Q 1%Q
         (fadd (node_time 1%Q 0) (1 # 4)%Q) = Some v
       /\ (v == 1 + (3 - 1) * ((1 # 4) / 1))%Q.
Proof.
  split; [reflexivity|]. split; [reflexivity|]. split; [reflexivity|].
  apply (control_interpolation_reproduces_lines [1; 3]%Q [2]%Q
           1%Q (1 # 4)%Q 0 1%Q 2%Q 3%Q);
    reflexivity.
Defined.

Lemma multiple_shooting_on_the_integrated_trajectory_witness :
  ms_unravel trajectory_flat = Some (trajectory_xs, ms_us)
  /\ exists d terminal,
       MultipleShooting.equality_constraints ms_unravel trajectory_flat
       = Some d
       /\ SingleShooting.equality_constraints ms_us = Some terminal
       /\ (forall i, i < 2 * 1 ->
             exists v, d !! i = Some v /\ (v == 0)%Q)
       /\ drop (2 * 1) d = terminal.
Proof.
  split; [reflexivity|].
  apply (multiple_shooting_on_the_integrated_trajectory ms_unravel
           trajectory_flat ms_us 1);
    reflexivity.
Defined.

End more_witnesses.
